(** * book-parser: the catalogue scraper of [scraper.py]

    A shallow embedding of [scraper.py] and the properties of its crawl and
    extract pipeline.

    Representation choices.
    - A Python [str] is a [string]: the bytes of its UTF-8 encoding.
      Concatenation, equality and dictionary lookup are the same on both sides.
      [str.strip] removes the white space of Unicode, each character in its
      encoding of one, two or three bytes.  The class [\d] of [re.search] is
      taken over the ASCII digits: a statement about the stock amount says so.
    - A parsed page is a tree of [node]s, as [html.parser] hands it to
      BeautifulSoup: a [Tag] carries its name, its [class] attribute (a list of
      strings, since [class] is multi-valued), its remaining attributes and its
      contents.  The body of a response is represented by what the parser
      makes of it: the tree it builds, or the exception it raises.
    - A [dict[str, str]] is an association list without repeated keys, in
      insertion order; a [set[str]] is a [gset string]; the files on disk are a
      [gmap string string] from file name to content.
    - A call either returns, raises, or is cut off by the fuel of an unbounded
      loop: the three cases of [outcome].
    - The transport is a function from the URL and the timeout to what
      [session.get] does there: it returns a response, raises an exception of
      the [RequestException] family, or raises another exception.  A URL
      asked twice answers the same.  Thread
      timing is an oracle that orders the futures of a batch; the iteration
      order of a set is an oracle too.
    - Console output is left out, and so is the pause between batches, whose
      [delay] stays at its default. *)

From Stdlib Require Import ZArith Ascii DecimalString DecimalZ DecimalPos.
From stdpp Require Import gmap strings list.

Open Scope string_scope.
Open Scope list_scope.
Open Scope Z_scope.

(** ** Outcomes of a call *)

Inductive exn :=
| KeyError (key : string)
| ValueError (msg : string)
| LocationParseError (location : string)
| ParserRejectedMarkup (msg : string)
| OtherError (class_name msg : string).

Inductive outcome (A : Type) :=
| Ok (a : A)
| Raise (e : exn)
| OutOfFuel.

Arguments Ok {A} a.
Arguments Raise {A} e.
Arguments OutOfFuel {A}.

#[global] Instance outcome_ret : MRet outcome := fun A a => Ok a.
#[global] Instance outcome_bind : MBind outcome := fun A B f m =>
  match m with
  | Ok a => f a
  | Raise e => Raise e
  | OutOfFuel => OutOfFuel
  end.
#[global] Instance outcome_fmap : FMap outcome := fun A B f m =>
  match m with
  | Ok a => Ok (f a)
  | Raise e => Raise e
  | OutOfFuel => OutOfFuel
  end.

(** ** Text *)

Module Text.

(** The white space [str.strip] removes.  On one byte: tab, line feed,
    vertical tab, form feed, carriage return, the four separators 0x1c..0x1f
    and space. *)
Definition is_space (c : ascii) : bool :=
  let n := nat_of_ascii c in
  ((9 <=? n)%nat && (n <=? 13)%nat) || ((28 <=? n)%nat && (n <=? 32)%nat).

(** On two bytes: U+0085 and U+00A0. *)
Definition is_space2 (c d : ascii) : bool :=
  let c := nat_of_ascii c in
  let d := nat_of_ascii d in
  (c =? 194)%nat && ((d =? 133)%nat || (d =? 160)%nat).

(** On three bytes: U+1680, U+2000..U+200A, U+2028, U+2029, U+202F, U+205F
    and U+3000. *)
Definition is_space3 (c d e : ascii) : bool :=
  let c := nat_of_ascii c in
  let d := nat_of_ascii d in
  let e := nat_of_ascii e in
  ((c =? 225)%nat && (d =? 154)%nat && (e =? 128)%nat)
  || ((c =? 226)%nat && (d =? 128)%nat
      && (((128 <=? e)%nat && (e <=? 138)%nat)
          || (e =? 168)%nat || (e =? 169)%nat || (e =? 175)%nat))
  || ((c =? 226)%nat && (d =? 129)%nat && (e =? 159)%nat)
  || ((c =? 227)%nat && (d =? 128)%nat && (e =? 128)%nat).

(** The digits of [\d] that ASCII has. *)
Definition is_digit (c : ascii) : bool :=
  let n := nat_of_ascii c in
  (48 <=? n)%nat && (n <=? 57)%nat.

(** Dropping the leading white space, for a white space of two and of three
    bytes given by [two] and [three]. *)
Fixpoint lstrip_with (two : ascii -> ascii -> bool)
    (three : ascii -> ascii -> ascii -> bool) (s : string) : string :=
  match s with
  | EmptyString => EmptyString
  | String c r =>
      if is_space c then lstrip_with two three r
      else
        match r with
        | EmptyString => s
        | String d r2 =>
            if two c d then lstrip_with two three r2
            else
              match r2 with
              | EmptyString => s
              | String e r3 =>
                  if three c d e then lstrip_with two three r3 else s
              end
        end
  end.

Definition lstrip (s : string) : string :=
  lstrip_with is_space2 is_space3 s.

(** From the right the bytes of a character come last byte first. *)
Definition rstrip (s : string) : string :=
  String.rev
    (lstrip_with (fun d c => is_space2 c d) (fun e d c => is_space3 c d e)
       (String.rev s)).

Definition strip (s : string) : string := rstrip (lstrip s).

(** [sep.join(items)] *)
Fixpoint join (sep : string) (items : list string) : string :=
  match items with
  | [] => ""
  | [x] => x
  | x :: r => x +:+ sep +:+ join sep r
  end.

(** [str(n)] for an [int]. *)
Definition str_of_int (n : Z) : string :=
  NilZero.string_of_int (Z.to_int n).

(** The longest prefix of [s] made of digits. *)
Fixpoint take_digits (s : string) : string :=
  match s with
  | EmptyString => EmptyString
  | String c r => if is_digit c then String c (take_digits r) else EmptyString
  end.

(** [re.search(r"\d+", s)]: the match object is represented by the text of
    [group()], the leftmost longest run of digits. *)
Fixpoint re_search_digits (s : string) : option string :=
  match s with
  | EmptyString => None
  | String c r => if is_digit c then Some (take_digits s) else re_search_digits r
  end.

End Text.

(** ** The parse tree *)

#[warnings="-register-all"]
Inductive node :=
| NavigableString (s : string)
| Tag (name : string) (cls : option (list string))
      (attrs : list (string * string)) (contents : list node).

(** A page, the [BeautifulSoup] object, is the [Tag] named [[document]] whose
    contents are the top-level nodes. *)
Definition BeautifulSoup (contents : list node) : node :=
  Tag "[document]" None [] contents.

Module Soup.

(** What a search compares an attribute (or the name) against: [True], a
    string, or a list of strings. *)
Inductive match_against :=
| MTrue
| MStr (s : string)
| MList (l : list string).

(** The keyword arguments of a search: [class_] if it is given, and the
    other attributes asked for. *)
Record keywords := Keywords {
  class_ : option match_against;
  others : list (string * match_against)
}.

Definition no_keywords : keywords := Keywords None [].
Definition class_is (m : match_against) : keywords := Keywords (Some m) [].

(** The keys that do not filter on a single-valued attribute: the parameters
    of [find] and [find_all] and of the functions that pass their keywords on,
    [class] itself, and the attributes the parser keeps as lists. *)
Definition reserved : list string :=
  ["self"; "name"; "attrs"; "recursive"; "string"; "text"; "limit";
   "_stacklevel"; "html_elem"; "tag"; "class"; "class_"; "rel"; "rev";
   "accept-charset"; "headers"; "accesskey"; "dropzone"].

(** Keyword arguments that are attribute filters, each key given once. *)
Definition attribute_filters (kwargs : keywords) : Prop :=
  NoDup (map fst (others kwargs))
  ∧ Forall (fun key => key ∉ reserved) (map fst (others kwargs)).

(** What [find(name, **kwargs)] and [find_all(name, **kwargs)] search with:
    the tag name if one is given, and the attributes. *)
Record strainer := Strainer {
  s_name : option string;
  s_class : option match_against;
  s_attrs : list (string * match_against)
}.

Definition SoupStrainer (name : option string) (kwargs : keywords) : strainer :=
  Strainer name (class_ kwargs) (others kwargs).

(** [elem.descendants]: every node below [n], in document order. *)
Fixpoint descendants (n : node) : list node :=
  match n with
  | NavigableString _ => []
  | Tag _ _ _ cs =>
      (fix go (l : list node) : list node :=
         match l with
         | [] => []
         | c :: r => c :: descendants c ++ go r
         end) cs
  end.

(** [SoupStrainer._matches] on one value; [None] is an attribute the tag
    does not have, which only a falsy [match_against] matches. *)
Definition matches (markup : option string) (m : match_against) : bool :=
  match m with
  | MTrue => match markup with Some _ => true | None => false end
  | MStr s =>
      match markup with
      | Some v => String.eqb v s
      | None => String.eqb s ""
      end
  | MList l =>
      match markup with
      | Some v => existsb (String.eqb v) l
      | None => match l with [] => true | _ => false end
      end
  end.

(** [_matches] on the multi-valued [class]: some item matches, or the
    items joined by a space do. *)
Definition matches_class (markup : option (list string)) (m : match_against) : bool :=
  match markup with
  | None => matches None m
  | Some items =>
      existsb (fun item => matches (Some item) m) items
      || matches (Some (Text.join " " items)) m
  end.

(** [tag[key]] for a single-valued attribute. *)
Fixpoint get_attr (attrs : list (string * string)) (key : string) : option string :=
  match attrs with
  | [] => None
  | (k, v) :: r => if String.eqb k key then Some v else get_attr r key
  end.

(** [SoupStrainer.search]: a string never matches a search that gives a name
    or an attribute (or nothing at all, with a limit); a tag matches when its
    name and every listed attribute do. *)
Definition search (st : strainer) (n : node) : bool :=
  match n with
  | NavigableString _ => false
  | Tag name cls attrs _ =>
      match s_name st with
      | None => true
      | Some t => String.eqb name t
      end
      && match s_class st with
         | None => true
         | Some m => matches_class cls m
         end
      && forallb (fun '(k, m) => matches (get_attr attrs k) m) (s_attrs st)
  end.

Definition find_all (st : strainer) (n : node) : list node :=
  List.filter (search st) (descendants n).

(** [find] is [find_all] with a limit of one. *)
Definition find (st : strainer) (n : node) : option node :=
  head (find_all st n).

(** The first match below [n] together with its later siblings, which is
    what [find(...)] followed by [.next_siblings] reaches. *)
Fixpoint find_with_next_siblings (st : strainer) (n : node)
  : option (node * list node) :=
  match n with
  | NavigableString _ => None
  | Tag _ _ _ cs =>
      (fix go (l : list node) : option (node * list node) :=
         match l with
         | [] => None
         | c :: r =>
             if search st c then Some (c, r)
             else match find_with_next_siblings st c with
                  | Some hit => Some hit
                  | None => go r
                  end
         end) cs
  end.

(** [find_next_sibling()] without arguments: the next sibling that is a tag. *)
Fixpoint find_next_sibling (next_siblings : list node) : option node :=
  match next_siblings with
  | [] => None
  | NavigableString _ :: r => find_next_sibling r
  | Tag name cls attrs cs :: _ => Some (Tag name cls attrs cs)
  end.

(** [_all_strings]: the strings below [n]; with [strip] each is stripped
    and the empty ones are dropped. *)
Definition all_strings (strip : bool) (n : node) : list string :=
  flat_map
    (fun d =>
       match d with
       | NavigableString s =>
           if strip then
             let s' := Text.strip s in
             if String.eqb s' "" then [] else [s']
           else [s]
       | Tag _ _ _ _ => []
       end)
    (descendants n).

(** [get_text(strip=...)], with the default empty separator. *)
Definition get_text (strip : bool) (n : node) : string :=
  Text.join "" (all_strings strip n).

End Soup.

Import Soup.

(** [find(tag)] and [find_all(tag)] without keywords. *)
Definition by_tag (tag : string) : strainer := SoupStrainer (Some tag) no_keywords.

(** ** Dictionaries *)

Module Dict.

Definition dict := list (string * string).

Fixpoint get (d : dict) (key : string) : option string :=
  match d with
  | [] => None
  | (k, v) :: r => if String.eqb k key then Some v else get r key
  end.

(** [d[key] = value]: an existing key keeps its place and takes the new
    value, a new key goes to the end. *)
Fixpoint set (d : dict) (key value : string) : dict :=
  match d with
  | [] => [(key, value)]
  | (k, v) :: r =>
      if String.eqb k key then (k, value) :: r else (k, v) :: set r key value
  end.

(** [d.update(other)] *)
Definition update (d other : dict) : dict :=
  fold_left (fun acc '(k, v) => set acc k v) other d.

Definition keys (d : dict) : list string := map fst d.

(** [key in d] *)
Definition contains (d : dict) (key : string) : bool :=
  match get d key with Some _ => true | None => false end.

End Dict.

Abbreviation dict := Dict.dict.

(** ** Python built-ins the loops use *)

Module Py.

(** The values [range(start, stop, step)] yields, for [step <> 0]: counting
    up while below [stop], or down while above it. *)
Fixpoint range_up (fuel : nat) (i stop step : Z) : list Z :=
  match fuel with
  | O => []
  | S fuel' => if i <? stop then i :: range_up fuel' (i + step) stop step else []
  end.

Fixpoint range_down (fuel : nat) (i stop step : Z) : list Z :=
  match fuel with
  | O => []
  | S fuel' => if stop <? i then i :: range_down fuel' (i + step) stop step else []
  end.

(** [range] raises [ValueError] on a zero step.  As every step moves by at
    least one, [|stop - start|] steps exhaust the range. *)
Definition range (start stop step : Z) : outcome (list Z) :=
  if step =? 0 then Raise (ValueError "range() arg 3 must not be zero")
  else if 0 <? step then Ok (range_up (Z.to_nat (stop - start)) start stop step)
  else Ok (range_down (Z.to_nat (start - stop)) start stop step).

(** A slice bound, brought into [0 .. len]: a negative bound counts from
    the end. *)
Definition clamp (len i : Z) : Z :=
  if i <? 0 then Z.max 0 (i + len) else Z.min i len.

(** [l[lo:hi]] *)
Definition slice {A} (l : list A) (lo hi : Z) : list A :=
  let len := Z.of_nat (length l) in
  let lo' := clamp len lo in
  let hi' := clamp len hi in
  take (Z.to_nat (hi' - lo')) (drop (Z.to_nat lo') l).

End Py.

(** ** The transport *)

(** What [BeautifulSoup(response.text, "html.parser")] makes of a body: the
    tree, or the exception of a parser that rejects the markup. *)
Inductive markup :=
| Parsed (soup : node)
| Rejected (e : exn).

Coercion Parsed : node >-> markup.

(** What [session.get(url, timeout=...)] does: it raises a
    [requests.exceptions.RequestException] (no connection, timeout, bad URL),
    it returns a response with a status code and a body, or it raises an
    exception outside that family ([ValueError] for a timeout that is not
    positive, [LocationParseError]). *)
Inductive response :=
| RequestException
| Response (status_code : Z) (text : markup)
| Raises (e : exn).

Definition Session := string -> option Z -> response.

(** [response.raise_for_status()] raises [HTTPError] on a 4xx or 5xx status. *)
Definition raise_for_status (status_code : Z) : bool :=
  (400 <=? status_code) && (status_code <? 600).

Definition NOT_FOUND_STATUS_CODE : Z := 404.

(** ** The detail extractor *)

(** Of what the [try] block raises the two [except] clauses catch
    [HTTPError] and the other [RequestException]s; the rest goes on to the
    caller. *)
Definition _get_book_response (book_url : string) (session : Session) (timeout : Z)
  : outcome (option node) :=
  match session book_url (Some timeout) with
  | Response status_code text =>
      if raise_for_status status_code then Ok None (* except HTTPError *)
      else
        match text with
        | Parsed soup => Ok (Some soup)
        | Rejected e => Raise e
        end
  | RequestException => Ok None (* except RequestException *)
  | Raises e => Raise e
  end.

Definition _get_attr_text (html_elem : node) (tag : string) (kwargs : keywords)
  : string :=
  match find (SoupStrainer (Some tag) kwargs) html_elem with
  | Some elem => get_text true elem
  | None => ""
  end.

Definition _get_stock_amount (stock_info : string) : string :=
  match Text.re_search_digits stock_info with
  | Some in_stock => in_stock
  | None => ""
  end.

Definition rating_map : dict :=
  [("Zero", "0"); ("One", "1"); ("Two", "2");
   ("Three", "3"); ("Four", "4"); ("Five", "5")].

(** The loop [for cls in rate_tag["class"]] with its fall-through return. *)
Fixpoint rate_of_classes (classes : list string) : string :=
  match classes with
  | [] => ""
  | cls :: rest =>
      match Dict.get rating_map cls with
      | Some rate => rate
      | None => rate_of_classes rest
      end
  end.

(** [tag["class"]] *)
Definition get_class (n : node) : outcome (list string) :=
  match n with
  | Tag _ (Some classes) _ _ => Ok classes
  | _ => Raise (KeyError "class")
  end.

Definition _get_rate (html_elem : node) (tag : string) (kwargs : keywords)
  : outcome string :=
  match find (SoupStrainer (Some tag) kwargs) html_elem with
  | None => Ok ""
  | Some rate_tag =>
      classes ← get_class rate_tag;
      Ok (rate_of_classes classes)
  end.

(** [find("div", id="product_description", class_="sub-header")] *)
Definition description_header : strainer :=
  SoupStrainer (Some "div")
    (Keywords (Some (MStr "sub-header")) [("id", MStr "product_description")]).

Definition _collect_description (soup : node) : string :=
  match find_with_next_siblings description_header soup with
  | None => ""
  | Some (header, next_siblings) =>
      match find_next_sibling next_siblings with
      | Some description => get_text true description
      | None => ""
      end
  end.

(** The key and the value a table row gives. *)
Definition row_key (table_row : node) : string :=
  match find (by_tag "th") table_row with
  | Some header => get_text false header
  | None => ""
  end.

Definition row_value (table_row : node) : string :=
  match find (by_tag "td") table_row with
  | Some row => get_text false row
  | None => ""
  end.

(** One turn of the loop over the table rows. *)
Definition additional_info_row (additional_info_dict : dict) (table_row : node) : dict :=
  let key := row_key table_row in
  if String.eqb key "" then additional_info_dict
  else Dict.set additional_info_dict key (row_value table_row).

(** [find("table", class_=["table", "table-striped"])] *)
Definition additional_info_table : strainer :=
  SoupStrainer (Some "table") (class_is (MList ["table"; "table-striped"])).

Definition _collect_additional_info (soup : node) : dict :=
  match find additional_info_table soup with
  | None => []
  | Some table => fold_left additional_info_row (find_all (by_tag "tr") table) []
  end.

(** [find(class_="product_main")] *)
Definition product_main : strainer :=
  SoupStrainer None (class_is (MStr "product_main")).

Definition get_book_data (book_url : string) (session : Session) (timeout : Z)
  : outcome dict :=
  soup ← _get_book_response book_url session timeout;
  match soup with
  | None => Ok []
  | Some soup =>
      match find product_main soup with
      | None => Ok []
      | Some main_info =>
          let name := _get_attr_text main_info "h1" no_keywords in
          let price := _get_attr_text main_info "p" (class_is (MStr "price_color")) in
          let stock :=
            _get_stock_amount
              (_get_attr_text main_info "p"
                 (class_is (MList ["instock"; "availability"]))) in
          rate ← _get_rate main_info "p" (class_is (MStr "star-rating"));
          let book_dict : dict :=
            [("Book name", name);
             ("Book price", price);
             ("In stock amount", stock);
             ("Rate", rate);
             ("Book description", _collect_description soup)] in
          Ok (Dict.update book_dict (_collect_additional_info soup))
      end
  end.

(** ** The link collector *)

Definition base_url : string := "https://books.toscrape.com/catalogue/".

Definition page_url (page_num : Z) : string :=
  "https://books.toscrape.com/catalogue/page-" +:+ Text.str_of_int page_num +:+ ".html".

Definition _process_page (session : Session) (page_num : Z) (links_amount : Z)
  : outcome (option node) :=
  match session (page_url page_num) None with
  | Response status_code text =>
      if raise_for_status status_code then
        (* except HTTPError: the two branches differ in the message only *)
        if status_code =? NOT_FOUND_STATUS_CODE then Ok None else Ok None
      else
        match text with
        | Parsed soup => Ok (Some soup)
        | Rejected e => Raise e
        end
  | RequestException => Ok None (* except RequestException *)
  | Raises e => Raise e
  end.

(** [a["href"]] *)
Definition get_href (a : node) : outcome string :=
  match a with
  | Tag _ _ attrs _ =>
      match get_attr attrs "href" with
      | Some href => Ok href
      | None => Raise (KeyError "href")
      end
  | NavigableString _ => Raise (KeyError "href")
  end.

(** [find_all("a", href=True)] *)
Definition anchor_with_href : strainer :=
  SoupStrainer (Some "a") (Keywords None [("href", MTrue)]).

(** The generator handed to [links.update] for one heading. *)
Definition heading_links (h3 : node) : outcome (list string) :=
  mapM (fun a => href ← get_href a; Ok (base_url +:+ href))
       (find_all anchor_with_href h3).

(** A page is truthy whatever it holds, so the guard [if not soup] lets every
    page through. *)
Definition _collect_links_from_page (soup : node) : outcome (gset string) :=
  fold_left
    (fun acc h3 =>
       links ← acc;
       found ← heading_links h3;
       Ok (links ∪ list_to_set found))
    (find_all (by_tag "h3") soup)
    (Ok ∅).

(** How one turn of the [while True] loop ends: at [break], or ready for the
    next page. *)
Inductive turn :=
| Break (links : gset string)
| Continue (start_page_num : Z) (links : gset string).

Definition loop_turn (session : Session) (start_page_num : Z) (links : gset string)
  : outcome turn :=
  current_page ← _process_page session start_page_num (Z.of_nat (size links));
  match current_page with
  | None => Ok (Break links)
  | Some current_page =>
      found ← _collect_links_from_page current_page;
      Ok (Continue (start_page_num + 1) (links ∪ found))
  end.

(** The loop itself; each turn costs one unit of fuel. *)
Fixpoint collect_loop (fuel : nat) (session : Session) (start_page_num : Z)
    (links : gset string) : outcome (gset string) :=
  match fuel with
  | O => OutOfFuel
  | S fuel' =>
      t ← loop_turn session start_page_num links;
      match t with
      | Break links' => Ok links'
      | Continue next_page_num links' => collect_loop fuel' session next_page_num links'
      end
  end.

Definition _collect_all_books_links (fuel : nat) (session : Session)
    (start_page_num : Z) : outcome (gset string) :=
  collect_loop fuel session start_page_num ∅.

(** ** The batch orchestrator *)

(** A submitted task: the link it was submitted for and what
    [future.result()] gives. *)
Definition future : Type := string * outcome dict.

(** [as_completed] yields the futures of a batch in the order the threads
    finish; the oracle gets the start index of the batch and its futures. *)
Definition completion_order := Z -> list future -> list future.

Definition default_timeout : Z := 10.

(** The body of the loop over the batches, from the creation of the pool to
    the last result collected. *)
Definition process_batch (as_completed : completion_order) (session : Session)
    (max_workers : Z) (i : Z) (batch : list string) : outcome (list dict) :=
  if max_workers <=? 0 then Raise (ValueError "max_workers must be greater than 0")
  else
    let future_to_link : list future :=
      map (fun link => (link, get_book_data link session default_timeout)) batch in
    mapM (fun fut : future => snd fut) (as_completed i future_to_link).

Definition _process_books_in_batches (as_completed : completion_order)
    (links : list string) (session : Session) (batch_size max_workers : Z)
  : outcome (list dict) :=
  starts ← Py.range 0 (Z.of_nat (length links)) batch_size;
  fold_left
    (fun (acc : outcome (list dict)) i =>
       all_books_data ← acc;
       let batch := Py.slice links i (i + batch_size) in
       collected ← process_batch as_completed session max_workers i batch;
       Ok (all_books_data ++ collected))
    starts
    (Ok []).

(** ** The persistence sink *)

Definition newline : string := String (ascii_of_nat 10) "".

Definition files := gmap string string.

(** [enumerate(l, start)] *)
Fixpoint enumerate {A} (l : list A) (start : Z) : list (Z * A) :=
  match l with
  | [] => []
  | x :: r => (start, x) :: enumerate r (start + 1)
  end.

(** The three writes for one book, appended to what the file holds so far. *)
Definition write_book (f : string) (entry : Z * dict) : string :=
  let '(i, book) := entry in
  let f := f +:+ ("Книга №" +:+ Text.str_of_int i +:+ newline) in
  let f := fold_left (fun f '(key, value) => f +:+ (key +:+ ": " +:+ value +:+ newline)) book f in
  f +:+ newline.

(** Opening with mode ["w"] starts from an empty file whatever was there. *)
Definition _save_books_to_file (books : list dict) (filename : string) (fs : files)
  : files :=
  let f := "" in
  let f := fold_left write_book (enumerate books 1) f in
  <[filename := f]> fs.

Definition default_filename : string := "books_data.txt".

(** ** The pipeline *)

(** [list(all_books_links)]: the order in which a set is iterated. *)
Definition set_order := gset string -> list string.

Definition default_batch_size : Z := 50.
Definition default_max_workers : Z := 10.

Definition scrape_books (fuel : nat) (session : Session) (list_of_set : set_order)
    (as_completed : completion_order) (save : bool) (fs : files)
  : outcome (list dict) * files :=
  match
    all_books_links ← _collect_all_books_links fuel session 1;
    _process_books_in_batches as_completed (list_of_set all_books_links) session
      default_batch_size default_max_workers
  with
  | Ok all_books_data =>
      (Ok all_books_data,
       if save then _save_books_to_file all_books_data default_filename fs else fs)
  | Raise e => (Raise e, fs)
  | OutOfFuel => (OutOfFuel, fs)
  end.

(** ** Vocabulary of the statements *)

Definition tag_name (n : node) : option string :=
  match n with
  | Tag name _ _ _ => Some name
  | NavigableString _ => None
  end.

Definition tag_class (n : node) : option (list string) :=
  match n with
  | Tag _ cls _ _ => cls
  | NavigableString _ => None
  end.

Definition tag_attr (n : node) (key : string) : option string :=
  match n with
  | Tag _ _ attrs _ => get_attr attrs key
  | NavigableString _ => None
  end.

(** A search by tag name and attribute filters, which is what the model of
    [find] covers. *)
Definition attribute_search (tag : string) (kwargs : keywords) : Prop :=
  tag ≠ "" ∧ attribute_filters kwargs.

(** A search by class: [class_] is given and is not a falsy value. *)
Definition class_given (kwargs : keywords) : Prop :=
  match class_ kwargs with
  | Some MTrue => True
  | Some (MStr s) => s ≠ ""
  | Some (MList l) => l ≠ []
  | None => False
  end.

(** [rate] is what the table gives for the first class it knows. *)
Definition first_mapped (classes : list string) (rate : string) : Prop :=
  ∃ before cls after,
    classes = before ++ cls :: after
    ∧ Forall (fun c => Dict.get rating_map c = None) before
    ∧ Dict.get rating_map cls = Some rate.

Definition fixed_keys : list string :=
  ["Book name"; "Book price"; "In stock amount"; "Rate"; "Book description"].

(** The three ways a fetch ends: with a failure the program catches, with a
    page, or with an exception the program lets through. *)
Definition fetch_fails (r : response) : Prop :=
  r = RequestException
  ∨ ∃ status_code text, r = Response status_code text ∧ 400 ≤ status_code < 600.

Definition fetch_gives (r : response) (page : node) : Prop :=
  ∃ status_code, r = Response status_code page ∧ ¬ (400 ≤ status_code < 600).

Definition fetch_raises (r : response) (e : exn) : Prop :=
  r = Raises e
  ∨ ∃ status_code,
      r = Response status_code (Rejected e) ∧ ¬ (400 ≤ status_code < 600).

(** The detail URLs of a listing page, in document order: for every [h3] of
    the page and every [a] below it that has an [href], the base path
    followed by that [href]. *)
Definition anchor_href (a : node) : option string :=
  match tag_name a with
  | Some name => if String.eqb name "a" then tag_attr a "href" else None
  | None => None
  end.

Definition is_heading (n : node) : bool :=
  match tag_name n with
  | Some name => String.eqb name "h3"
  | None => false
  end.

Definition page_links_list (soup : node) : list string :=
  flat_map
    (fun h3 => omap (fun a => String.append base_url <$> anchor_href a) (descendants h3))
    (List.filter is_heading (descendants soup)).

(** The layout of the dump, as the specification words it: a numbered
    header line and one [key: value] line per entry make a block, and a blank
    line follows each block. *)
Definition entry_line (entry : string * string) : string :=
  fst entry +:+ ": " +:+ snd entry +:+ newline.

Definition block (number : Z) (book : dict) : string :=
  ("Книга №" +:+ Text.str_of_int number +:+ newline)
  +:+ Text.join "" (map entry_line book).

Definition dump (books : list dict) : string :=
  Text.join "" (imap (fun k book => block (Z.of_nat k + 1) book +:+ newline) books).

(** The batches the loop of [_process_books_in_batches] cuts. *)
Definition batches (links : list string) (batch_size : Z) : outcome (list (list string)) :=
  starts ← Py.range 0 (Z.of_nat (length links)) batch_size;
  Ok (map (fun i => Py.slice links i (i + batch_size)) starts).

(** The futures of a batch, in the order of submission. *)
Definition futures_of (session : Session) (batch : list string) : list future :=
  map (fun link => (link, get_book_data link session default_timeout)) batch.

(** What asking the futures for their results gives, in the order in which
    they are asked: the list of the results, or the exception of the first
    that raises. *)
Definition results (futures : list future) : outcome (list dict) :=
  mapM (fun fut : future => snd fut) futures.

(** The record of a link, once [get_book_data] is known to return. *)
Definition record_of (session : Session) (link : string) : dict :=
  match get_book_data link session default_timeout with
  | Ok book_data => book_data
  | _ => []
  end.

(** What one batch adds to the output: the records of its futures, in the
    order of completion. *)
Definition collected (as_completed : completion_order) (session : Session)
    (i : Z) (batch : list string) : list dict :=
  map (fun fut : future => record_of session (fst fut))
      (as_completed i
         (map (fun link => (link, get_book_data link session default_timeout)) batch)).

(** Induction on a tree, with the property at hand for every child. *)
Section node_induction.
Variable P : node → Prop.
Hypothesis P_string : ∀ s, P (NavigableString s).
Hypothesis P_tag : ∀ name cls attrs cs, Forall P cs → P (Tag name cls attrs cs).

End node_induction.

(** ** Vocabulary of the further statements *)

Fixpoint string_forall (p : ascii → bool) (s : string) : bool :=
  match s with
  | EmptyString => true
  | String c r => p c && string_forall p r
  end.

(** A text in which [\d] and [str.strip] see the characters the model sees. *)
Definition is_ascii (s : string) : bool :=
  string_forall (fun c => (nat_of_ascii c <? 128)%nat) s.

Definition first_char (s : string) : option ascii :=
  match s with
  | EmptyString => None
  | String c _ => Some c
  end.




(** The elements of a list in the order in which they first occur. *)
Fixpoint first_occurrences (l : list string) : list string :=
  match l with
  | [] => []
  | x :: r => x :: filter (fun y => y ≠ x) (first_occurrences r)
  end.

(** The [href] values of a listing page, in document order. *)
Definition page_hrefs (soup : node) : list string :=
  flat_map (fun h3 => omap anchor_href (descendants h3))
           (List.filter is_heading (descendants soup)).

(** ** Sample pages *)

Module Sample.

Definition text_tag (name text : string) : node :=
  Tag name None [] [NavigableString text].

Definition classed (name : string) (classes : list string) (contents : list node) : node :=
  Tag name (Some classes) [] contents.

(** A main-info block: heading, price, availability, rating. *)
Definition main_info : node :=
  classed "div" ["col-sm-6"; "product_main"]
    [ text_tag "h1" " Sonnets ";
      classed "p" ["price_color"] [NavigableString "20.66"];
      classed "p" ["instock"; "availability"] [NavigableString " In stock (19 available) "];
      classed "p" ["star-rating"; "Three"] [] ].

Definition table_row (header data : string) : node :=
  Tag "tr" None [] [text_tag "th" header; text_tag "td" data].

Definition table_of (rows : list node) : node :=
  classed "table" ["table"; "table-striped"] rows.

Definition detail_page (rows : list node) : node :=
  BeautifulSoup [Tag "html" None [] [Tag "body" None [] [main_info; table_of rows]]].

(** A page with two ordinary table rows. *)
Definition plain_rows : list node := [table_row "UPC" "abc"; table_row "Tax" "0.00"].
Definition plain_page : node := detail_page plain_rows.

(** A page whose only table row is headed by the name key. *)
Definition clash_row : node := table_row "Book name" "Other".
Definition clash_page : node := detail_page [clash_row].

(** A row that has both cells, the header cell without text. *)
Definition blank_header_row : node :=
  Tag "tr" None [] [Tag "th" None [] []; text_tag "td" "orphan"].
Definition blank_header_page : node := detail_page [blank_header_row].

(** A page without a main-info block. *)
Definition bare_page : node := BeautifulSoup [text_tag "p" "nothing here"].

(** Listing pages: one heading with one anchor per [href]. *)
Definition listing_item (href : string) : node :=
  Tag "li" None []
    [Tag "h3" None [] [Tag "a" None [("href", href); ("title", "t")] [NavigableString "x"]]].

Definition listing_page (hrefs : list string) : node :=
  BeautifulSoup [Tag "ol" None [] (map listing_item hrefs)].

Definition page_one : node := listing_page ["a/index.html"; "b/index.html"].
Definition page_two : node := listing_page ["b/index.html"; "c/index.html"].

(** A transport that serves three detail pages, a two-page catalogue, and
    answers 404 to everything else. *)
Definition session : Session := fun url timeout =>
  if String.eqb url "plain" then Response 200 plain_page
  else if String.eqb url "clash" then Response 200 clash_page
  else if String.eqb url "bare" then Response 200 bare_page
  else if String.eqb url "down" then RequestException
  else if String.eqb url (page_url 1) then Response 200 page_one
  else if String.eqb url (page_url 2) then Response 200 page_two
  else Response 404 (BeautifulSoup []).

(** A transport that checks the timeout before it sends anything, as
    [requests] does. *)
Definition strict : Session := fun url timeout =>
  match timeout with
  | Some seconds =>
      if seconds <=? 0 then
        Raises
          (ValueError
             ("Attempted to set connect timeout to " +:+ Text.str_of_int seconds
              +:+ ", but the timeout cannot be set to a value less than or equal to 0."))
      else session url timeout
  | None => session url timeout
  end.

(** The sample transport with one more detail page, whose body the parser
    rejects. *)
Definition garbled : Session := fun url timeout =>
  if String.eqb url "garbled" then
    Response 200
      (Rejected (ParserRejectedMarkup "unknown status keyword 'x' in marked section"))
  else session url timeout.

(** U+00A0, the no-break space. *)
Definition nbsp : string := String (ascii_of_nat 194) (String (ascii_of_nat 160) "").

(** A catalogue without end: every page is served and has no anchor. *)
Definition endless : Session := fun url timeout => Response 200 (BeautifulSoup []).

(** Threads that finish in the reverse of the submission order. *)
Definition reversed : completion_order := fun _ futures => rev futures.

(** Threads that finish in the order of submission. *)
Definition in_order : completion_order := fun _ futures => futures.

(** The sample catalogue with a fourth page behind the missing third. *)
Definition page_four : node := listing_page ["d/index.html"].
Definition beyond : Session := fun url timeout =>
  if String.eqb url (page_url 4) then Response 200 page_four
  else session url timeout.

End Sample.


(** * Properties *)

(** ** Strings *)

Lemma append_cons (ch : ascii) (a b : string) :
  String ch a +:+ b = String ch (a +:+ b).
Proof. reflexivity. Qed.

Lemma append_assoc (a b c : string) : (a +:+ b) +:+ c = a +:+ (b +:+ c).
Proof.
  induction a as [|ch a IH]; [reflexivity |].
  rewrite !append_cons. by f_equal.
Qed.

Lemma append_empty_r (a : string) : a +:+ "" = a.
Proof.
  induction a as [|ch a IH]; [reflexivity |].
  rewrite append_cons. by f_equal.
Qed.

Lemma join_empty_cons (x : string) (l : list string) :
  Text.join "" (x :: l) = x +:+ Text.join "" l.
Proof.
  destruct l as [|y l]; simpl; [by rewrite append_empty_r | reflexivity].
Qed.

Lemma eqb_false_iff (a b : string) : String.eqb a b = false ↔ a ≠ b.
Proof. apply String.eqb_neq. Qed.

(** ** Dictionaries *)

Module DictFacts.

Lemma get_set_eq (d : dict) (k v : string) : Dict.get (Dict.set d k v) k = Some v.
Proof.
  induction d as [|[k' v'] d IH]; simpl.
  - by rewrite String.eqb_refl.
  - destruct (String.eqb k' k) eqn:E; simpl; rewrite E; [reflexivity | exact IH].
Qed.

Lemma get_set_ne (d : dict) (k v k0 : string) :
  k ≠ k0 → Dict.get (Dict.set d k v) k0 = Dict.get d k0.
Proof.
  intros Hne. induction d as [|[k' v'] d IH]; simpl.
  - by apply String.eqb_neq in Hne as ->.
  - destruct (String.eqb k' k) eqn:E; simpl.
    + apply String.eqb_eq in E as ->. by apply String.eqb_neq in Hne as ->.
    + by rewrite IH.
Qed.

Lemma get_None_keys (d : dict) (k : string) : Dict.get d k = None ↔ k ∉ Dict.keys d.
Proof.
  induction d as [|[k' v'] d IH]; simpl.
  - split; [intros _; apply not_elem_of_nil | reflexivity].
  - rewrite not_elem_of_cons. destruct (String.eqb_spec k' k) as [->|Hne].
    + split; [discriminate | intros [? _]; congruence].
    + rewrite IH. split; [intros ?; split; congruence | intros [_ ?]; assumption].
Qed.

Lemma get_Some_keys (d : dict) (k : string) : is_Some (Dict.get d k) ↔ k ∈ Dict.keys d.
Proof.
  destruct (Dict.get d k) eqn:E.
  - split; [intros _ | eauto].
    destruct (decide (k ∈ Dict.keys d)) as [|Hn]; [assumption |].
    apply get_None_keys in Hn. congruence.
  - apply get_None_keys in E. split; [intros [? ?]; discriminate | contradiction].
Qed.

Lemma keys_set (d : dict) (k v : string) :
  Dict.keys (Dict.set d k v)
  = if Dict.contains d k then Dict.keys d else Dict.keys d ++ [k].
Proof.
  unfold Dict.contains. induction d as [|[k' v'] d IH]; simpl; [reflexivity |].
  destruct (String.eqb k' k) eqn:E; simpl; [reflexivity |].
  rewrite IH. by destruct (Dict.get d k).
Qed.

Lemma contains_true (d : dict) (k : string) : Dict.contains d k = true ↔ k ∈ Dict.keys d.
Proof.
  rewrite <- get_Some_keys. unfold Dict.contains.
  destruct (Dict.get d k); split; eauto; try discriminate. intros [? ?]; discriminate.
Qed.

Lemma contains_false (d : dict) (k : string) : Dict.contains d k = false ↔ k ∉ Dict.keys d.
Proof.
  rewrite <- contains_true. destruct (Dict.contains d k); split; congruence.
Qed.

Lemma elem_of_keys_set (d : dict) (k v x : string) :
  x ∈ Dict.keys (Dict.set d k v) ↔ x = k ∨ x ∈ Dict.keys d.
Proof.
  rewrite keys_set. destruct (Dict.contains d k) eqn:E.
  - apply contains_true in E. split; [auto | intros [->|]; assumption].
  - rewrite elem_of_app, list_elem_of_singleton. tauto.
Qed.

Lemma NoDup_keys_set (d : dict) (k v : string) :
  NoDup (Dict.keys d) → NoDup (Dict.keys (Dict.set d k v)).
Proof.
  intros Hd. rewrite keys_set. destruct (Dict.contains d k) eqn:E; [assumption |].
  apply contains_false in E. apply NoDup_app. split; [assumption |].
  split; [| apply NoDup_singleton].
  intros x Hx Hk. apply list_elem_of_singleton in Hk as ->. contradiction.
Qed.

Lemma length_set_ge (d : dict) (k v : string) :
  (length d ≤ length (Dict.set d k v))%nat.
Proof.
  induction d as [|[k' v'] d IH]; simpl; [lia |].
  destruct (String.eqb k' k); simpl; lia.
Qed.

Lemma length_update_ge (other d : dict) :
  (length d ≤ length (Dict.update d other))%nat.
Proof.
  unfold Dict.update. revert d.
  induction other as [|[k v] other IH]; intros d; simpl; [lia |].
  etransitivity; [apply (length_set_ge d k v) | apply IH].
Qed.

(** Keys the other dictionary does not have keep their value. *)
Lemma get_update_None (other d : dict) (k : string) :
  Dict.get other k = None → Dict.get (Dict.update d other) k = Dict.get d k.
Proof.
  unfold Dict.update. revert d.
  induction other as [|[k' v'] other IH]; intros d; simpl; [reflexivity |].
  destruct (String.eqb_spec k' k) as [->|Hne]; [discriminate |].
  intros Hk. rewrite IH by assumption. by apply get_set_ne.
Qed.

(** [update] keeps the keys in place and appends the new ones in the order of
    the other dictionary. *)
Lemma keys_update (other d : dict) :
  NoDup (Dict.keys other) →
  Dict.keys (Dict.update d other)
  = Dict.keys d ++ filter (fun k => k ∉ Dict.keys d) (Dict.keys other).
Proof.
  unfold Dict.update. revert d.
  induction other as [|[k v] other IH]; intros d Hnd; simpl.
  - by rewrite app_nil_r.
  - simpl in Hnd. apply NoDup_cons in Hnd as [Hk Hnd].
    rewrite IH by assumption.
    assert (Hrest : filter (fun x => x ∉ Dict.keys (Dict.set d k v)) (Dict.keys other)
                    = filter (fun x => x ∉ Dict.keys d) (Dict.keys other)).
    { clear IH Hnd. induction (Dict.keys other) as [|x l IHl]; [reflexivity |].
      apply not_elem_of_cons in Hk as [Hxk Hk].
      rewrite !filter_cons, IHl by assumption.
      destruct (decide (x ∉ Dict.keys d)) as [Hx|Hx];
        destruct (decide (x ∉ Dict.keys (Dict.set d k v))) as [Hx'|Hx'];
        try reflexivity; exfalso.
      - apply Hx'. rewrite elem_of_keys_set. intros [->|?]; contradiction.
      - apply Hx. intros Hin. apply Hx'. rewrite elem_of_keys_set. by right. }
    rewrite Hrest, keys_set, filter_cons.
    destruct (Dict.contains d k) eqn:E.
    + apply contains_true in E. by rewrite decide_False by (intros Hn; contradiction).
    + apply contains_false in E. rewrite decide_True by assumption.
      by rewrite <- app_assoc.
Qed.

(** In a dictionary, the entry of a key is the only pair with that key. *)
Lemma get_Some_elem_of (d : dict) (k v : string) :
  NoDup (Dict.keys d) → Dict.get d k = Some v ↔ (k, v) ∈ d.
Proof.
  induction d as [|[k' v'] d IH]; simpl; intros Hnd.
  - split; [discriminate | intros H; by apply elem_of_nil in H].
  - apply NoDup_cons in Hnd as [Hk' Hnd]. rewrite elem_of_cons.
    destruct (String.eqb_spec k' k) as [->|Hne].
    + split; [intros [= ->]; by left |].
      intros [[= ->]|Hin]; [reflexivity |].
      exfalso. apply Hk'. apply list_elem_of_fmap. by exists (k, v).
    + rewrite IH by assumption. split; [by right |].
      intros [Heq|?]; [| assumption]. injection Heq as -> ->. contradiction.
Qed.

End DictFacts.

(** ** Searching the tree *)


Lemma find_Some (st : strainer) (n t : node) :
  find st n = Some t → t ∈ find_all st n ∧ search st t = true ∧ t ∈ descendants n.
Proof.
  unfold find. intros H.
  assert (Hin : t ∈ find_all st n).
  { destruct (find_all st n) as [|x l]; simpl in H; [discriminate |].
    injection H as ->. apply list_elem_of_here. }
  split; [assumption |].
  unfold find_all in Hin. apply list_elem_of_In, filter_In in Hin as [Hd Hs].
  split; [assumption | by apply list_elem_of_In].
Qed.


(** A tag found by a search by class has a [class] attribute. *)
Lemma search_class_given (name : option string) (kwargs : keywords) (n : node) :
  class_given kwargs →
  search (SoupStrainer name kwargs) n = true →
  ∃ classes, tag_class n = Some classes.
Proof.
  unfold class_given. intros Hc Hs.
  destruct n as [s | tname cls attrs cs]; simpl in *; [discriminate |].
  destruct cls as [classes|]; [eauto |]. exfalso.
  destruct (class_ kwargs) as [[|s|l]|]; try contradiction; simpl in Hs.
  - rewrite andb_false_r in Hs. discriminate.
  - apply eqb_false_iff in Hc. rewrite Hc, andb_false_r in Hs. discriminate.
  - destruct l; [contradiction |]. rewrite andb_false_r in Hs. discriminate.
Qed.

(** ** The rating lookup *)

Lemma rating_map_entries (cls rate : string) :
  Dict.get rating_map cls = Some rate
  ↔ (cls, rate) ∈ [("Zero", "0"); ("One", "1"); ("Two", "2");
                    ("Three", "3"); ("Four", "4"); ("Five", "5")].
Proof.
  apply (DictFacts.get_Some_elem_of rating_map).
  apply (bool_decide_unpack _). by vm_compute.
Qed.

Lemma rate_of_classes_first (classes : list string) :
  (∃ rate, first_mapped classes rate ∧ rate_of_classes classes = rate)
  ∨ (Forall (fun c => Dict.get rating_map c = None) classes
     ∧ rate_of_classes classes = "").
Proof.
  induction classes as [|cls rest IH].
  - right. split; [constructor | reflexivity].
  - cbn [rate_of_classes]. destruct (Dict.get rating_map cls) as [rate|] eqn:E.
    + left. exists rate. split; [| reflexivity].
      exists [], cls, rest. split; [reflexivity |]. split; [constructor | assumption].
    + destruct IH as [(rate & (before & c & after & -> & Hb & Hc) & Hr) | [Hall Hr]].
      * left. exists rate. split; [| assumption].
        exists (cls :: before), c, after.
        split; [reflexivity |]. split; [by constructor | assumption].
      * right. split; [by constructor | assumption].
Qed.

(** A search by class never makes the lookup raise. *)
Lemma get_rate_returns (html_elem : node) (tag : string) (kwargs : keywords) :
  class_given kwargs → ∃ rate, _get_rate html_elem tag kwargs = Ok rate.
Proof.
  intros Hclass. unfold _get_rate.
  destruct (find (SoupStrainer (Some tag) kwargs) html_elem) as [rate_tag|] eqn:Hfind;
    [| eauto].
  apply find_Some in Hfind as (_ & Hsearch & _).
  destruct (search_class_given _ kwargs rate_tag Hclass Hsearch) as [classes Hcls].
  destruct rate_tag as [s | name cls attrs cs]; [discriminate |].
  simpl in Hcls. subst cls. simpl. eauto.
Qed.



Lemma get_rate_sample :
  _get_rate Sample.main_info "p" (class_is (MStr "star-rating")) = Ok "3".
Proof. reflexivity. Qed.


(** ** The additional-info table *)

(** Adding a row that is neither the one looked for nor in its way does not
    change where the last row looked for is. *)
Lemma last_occurrence_snoc {A} (P Q : A → Prop) (rows : list A) (r : A) :
  Q r → ¬ P r →
  (∃ before x after, rows ++ [r] = before ++ x :: after ∧ P x ∧ Forall Q after)
  ↔ (∃ before x after, rows = before ++ x :: after ∧ P x ∧ Forall Q after).
Proof.
  intros HQ HP. split.
  - intros (before & x & after & Heq & Hx & Hafter).
    destruct after as [|y after _] using rev_ind.
    + apply app_inj_tail in Heq as [_ <-]. contradiction.
    + rewrite app_comm_cons, app_assoc in Heq. apply app_inj_tail in Heq as [-> _].
      apply Forall_app in Hafter as [Hafter _]. by exists before, x, after.
  - intros (before & x & after & -> & Hx & Hafter).
    exists before, x, (after ++ [r]). split; [by rewrite <- app_assoc |].
    split; [assumption |]. apply Forall_app. split; [assumption | by constructor].
Qed.

Lemma additional_rows_get (rows : list node) (key value : string) :
  Dict.get (fold_left additional_info_row rows []) key = Some value
  ↔ key ≠ ""
    ∧ ∃ before row after,
        rows = before ++ row :: after
        ∧ (row_key row = key ∧ row_value row = value)
        ∧ Forall (fun r => row_key r ≠ key) after.
Proof.
  induction rows as [|r rows IH] using rev_ind.
  - simpl. split; [discriminate |].
    intros (_ & before & row & after & Heq & _). by destruct before.
  - rewrite fold_left_app. simpl. unfold additional_info_row at 1.
    destruct (String.eqb_spec (row_key r) "") as [Hempty|Hfull].
    + rewrite IH. split; intros [Hkey Hex]; (split; [assumption |]).
      * apply last_occurrence_snoc; [congruence | | assumption]. intros [? _]. congruence.
      * apply last_occurrence_snoc in Hex; [assumption | congruence |].
        intros [? _]. congruence.
    + destruct (decide (row_key r = key)) as [<-|Hne].
      * rewrite DictFacts.get_set_eq. split.
        -- intros [= <-]. split; [assumption |].
           exists rows, r, []. split; [reflexivity |]. split; [tauto | constructor].
        -- intros (_ & before & row & after & Heq & [_ <-] & Hafter).
           destruct after as [|y after _] using rev_ind.
           ++ by apply app_inj_tail in Heq as [_ <-].
           ++ rewrite app_comm_cons, app_assoc in Heq.
              apply app_inj_tail in Heq as [_ <-].
              apply Forall_app in Hafter as [_ Hy]. by inversion Hy.
      * rewrite DictFacts.get_set_ne by assumption. rewrite IH.
        split; intros [Hkey Hex]; (split; [assumption |]).
        -- apply last_occurrence_snoc; [assumption | | assumption]. intros [? _]. congruence.
        -- apply last_occurrence_snoc in Hex; [assumption | assumption |].
           intros [? _]. congruence.
Qed.

Lemma additional_rows_keys (rows : list node) (key : string) :
  key ∈ Dict.keys (fold_left additional_info_row rows [])
  ↔ key ≠ "" ∧ ∃ row, row ∈ rows ∧ row_key row = key.
Proof.
  induction rows as [|r rows IH] using rev_ind.
  - simpl. split; [intros H; by apply elem_of_nil in H |].
    intros (_ & row & H & _). by apply elem_of_nil in H.
  - rewrite fold_left_app. simpl. unfold additional_info_row at 1.
    destruct (String.eqb_spec (row_key r) "") as [Hempty|Hfull].
    + rewrite IH. split; intros (Hkey & row & Hin & Hrow); (split; [assumption |]).
      * exists row. split; [apply elem_of_app; by left | assumption].
      * exists row. split; [| assumption].
        apply elem_of_app in Hin as [Hin|Hin]; [assumption |].
        apply list_elem_of_singleton in Hin as ->. congruence.
    + rewrite DictFacts.elem_of_keys_set, IH. split.
      * intros [->|(Hkey & row & Hin & Hrow)].
        -- split; [assumption |]. exists r. split; [| reflexivity].
           apply elem_of_app. right. apply list_elem_of_here.
        -- split; [assumption |]. exists row. split; [apply elem_of_app; by left | assumption].
      * intros (Hkey & row & Hin & Hrow).
        apply elem_of_app in Hin as [Hin|Hin].
        -- right. split; [assumption |]. by exists row.
        -- apply list_elem_of_singleton in Hin as ->. by left.
Qed.

Lemma additional_rows_NoDup (rows : list node) :
  NoDup (Dict.keys (fold_left additional_info_row rows [])).
Proof.
  induction rows as [|r rows IH] using rev_ind; [apply NoDup_nil_2 |].
  rewrite fold_left_app. simpl. unfold additional_info_row at 1.
  destruct (String.eqb (row_key r) ""); [assumption |].
  by apply DictFacts.NoDup_keys_set.
Qed.

(** When the rows have pairwise distinct, non-empty header texts, every row
    has its own entry, in the order of the rows. *)
Lemma additional_rows_keys_distinct (rows : list node) :
  NoDup (map row_key rows) →
  Forall (fun r => row_key r ≠ "") rows →
  Dict.keys (fold_left additional_info_row rows []) = map row_key rows.
Proof.
  induction rows as [|r rows IH] using rev_ind; intros Hnd Hfull; [reflexivity |].
  rewrite map_app in Hnd. apply NoDup_app in Hnd as (Hrows & Hfresh & _).
  apply Forall_app in Hfull as [Hfull Hr]. inversion_clear Hr as [|? ? Hkey _].
  rewrite fold_left_app, map_app. simpl. unfold additional_info_row at 1.
  apply eqb_false_iff in Hkey as Hkey'. rewrite Hkey'. clear Hkey'.
  rewrite DictFacts.keys_set, IH by assumption.
  destruct (Dict.contains (fold_left additional_info_row rows []) (row_key r)) eqn:E;
    [| reflexivity].
  exfalso. apply DictFacts.contains_true in E. rewrite IH in E by assumption.
  apply (Hfresh (row_key r) E). apply list_elem_of_here.
Qed.

Lemma filter_all {A} (P : A → Prop) `{∀ x, Decision (P x)} (l : list A) :
  Forall P l → filter P l = l.
Proof.
  induction 1 as [|x l Hx _ IH]; [reflexivity |].
  by rewrite filter_cons_True, IH.
Qed.

Lemma additional_info_NoDup (soup : node) :
  NoDup (Dict.keys (_collect_additional_info soup)).
Proof.
  unfold _collect_additional_info.
  destruct (find additional_info_table soup); [apply additional_rows_NoDup | apply NoDup_nil_2].
Qed.

(** C6. In the additional-info extraction, a row whose header cell has a
    non-empty text sets exactly the entry from the header text to the
    data-cell text, or to the empty string when the row has no data cell; a
    row whose header cell has no text, and a row without a header cell, leave
    the mapping as it is.  Over the whole table, the mapping holds under a key
    the value of the last row with that header text, and only non-empty
    header texts are keys. *)
Theorem additional_info_rows (soup table : node) :
  find additional_info_table soup = Some table →
  (∀ d row header data,
      find (by_tag "th") row = Some header →
      find (by_tag "td") row = Some data →
      get_text false header ≠ "" →
      additional_info_row d row
      = Dict.set d (get_text false header) (get_text false data))
  ∧ (∀ d row header,
        find (by_tag "th") row = Some header →
        find (by_tag "td") row = None →
        get_text false header ≠ "" →
        additional_info_row d row = Dict.set d (get_text false header) "")
  ∧ (∀ d row header,
        find (by_tag "th") row = Some header →
        get_text false header = "" →
        additional_info_row d row = d)
  ∧ (∀ d row, find (by_tag "th") row = None → additional_info_row d row = d)
  ∧ _collect_additional_info soup
    = fold_left additional_info_row (find_all (by_tag "tr") table) []
  ∧ (∀ key value,
        Dict.get (_collect_additional_info soup) key = Some value
        ↔ key ≠ ""
          ∧ ∃ before row after,
              find_all (by_tag "tr") table = before ++ row :: after
              ∧ (row_key row = key ∧ row_value row = value)
              ∧ Forall (fun r => row_key r ≠ key) after).
Proof.
  intros Htable. repeat split.
  - intros d row header data Hth Htd Hne.
    unfold additional_info_row, row_key, row_value. rewrite Hth, Htd.
    by apply eqb_false_iff in Hne as ->.
  - intros d row header Hth Htd Hne.
    unfold additional_info_row, row_key, row_value. rewrite Hth, Htd.
    by apply eqb_false_iff in Hne as ->.
  - intros d row header Hth Hempty.
    unfold additional_info_row, row_key. by rewrite Hth, Hempty.
  - intros d row Hth. unfold additional_info_row, row_key. by rewrite Hth.
  - unfold _collect_additional_info. by rewrite Htable.
  - unfold _collect_additional_info in H. rewrite Htable in H.
    by apply additional_rows_get in H as [? _].
  - unfold _collect_additional_info in H. rewrite Htable in H.
    by apply additional_rows_get in H as [_ ?].
  - intros [Hkey Hex]. unfold _collect_additional_info. rewrite Htable.
    by apply additional_rows_get.
Qed.


Lemma additional_info_rows_witness :
  find additional_info_table Sample.plain_page = Some (Sample.table_of Sample.plain_rows)
  ∧ Dict.get (_collect_additional_info Sample.plain_page) "UPC" = Some "abc".
Proof.
  split; [reflexivity |].
  destruct (additional_info_rows Sample.plain_page (Sample.table_of Sample.plain_rows))
    as (_ & _ & _ & _ & _ & Hget); [reflexivity |].
  apply Hget. split; [discriminate |].
  exists [], (Sample.table_row "UPC" "abc"), [Sample.table_row "Tax" "0.00"].
  split; [reflexivity |]. split; [split; reflexivity |].
  constructor; [vm_compute; discriminate | constructor].
Defined.

(** A row with both cells and a header cell without text leaves no entry. *)
Lemma additional_info_blank_header_counterexample :
  find additional_info_table Sample.blank_header_page
  = Some (Sample.table_of [Sample.blank_header_row])
  ∧ find_all (by_tag "tr") (Sample.table_of [Sample.blank_header_row])
    = [Sample.blank_header_row]
  ∧ find (by_tag "th") Sample.blank_header_row = Some (Tag "th" None [] [])
  ∧ find (by_tag "td") Sample.blank_header_row = Some (Sample.text_tag "td" "orphan")
  ∧ _collect_additional_info Sample.blank_header_page = [].
Proof. repeat split; reflexivity. Qed.

(** ** The detail extractor *)

Lemma raise_for_status_true (status_code : Z) :
  raise_for_status status_code = true ↔ 400 ≤ status_code < 600.
Proof. unfold raise_for_status. rewrite andb_true_iff, Z.leb_le, Z.ltb_lt. tauto. Qed.

Lemma raise_for_status_false (status_code : Z) :
  raise_for_status status_code = false ↔ ¬ (400 ≤ status_code < 600).
Proof.
  rewrite <- raise_for_status_true. destruct (raise_for_status status_code); split; congruence.
Qed.

(** A fetch ends in one of the three ways. *)
Lemma fetch_cases (r : response) :
  fetch_fails r ∨ (∃ page, fetch_gives r page) ∨ (∃ e, fetch_raises r e).
Proof.
  destruct r as [|status_code text|e]; [left; by left | | right; right; exists e; by left].
  destruct (raise_for_status status_code) eqn:E.
  - apply raise_for_status_true in E. left. right. by exists status_code, text.
  - apply raise_for_status_false in E. right. destruct text as [soup|e].
    + left. exists soup. by exists status_code.
    + right. exists e. right. by exists status_code.
Qed.

Lemma fetch_fails_not_gives (r : response) (page : node) :
  fetch_fails r → fetch_gives r page → False.
Proof.
  intros [-> | (st & tx & -> & Hst)] (st' & Heq & Hst'); [discriminate |].
  injection Heq as <- _. contradiction.
Qed.

Lemma fetch_gives_inj (r : response) (page page' : node) :
  fetch_gives r page → fetch_gives r page' → page = page'.
Proof. intros (st & -> & _) (st' & Heq & _). by injection Heq. Qed.

(** What the three ways make of a call that fetches: the shape the two
    fetching functions share. *)
Lemma fetched_cases (r : response) (fetched : outcome (option node)) :
  fetched
  = match r with
    | Response status_code text =>
        if raise_for_status status_code then Ok None
        else match text with Parsed soup => Ok (Some soup) | Rejected e => Raise e end
    | RequestException => Ok None
    | Raises e => Raise e
    end →
  (fetched = Ok None ↔ fetch_fails r)
  ∧ (∀ soup, fetched = Ok (Some soup) ↔ fetch_gives r soup)
  ∧ (∀ e, fetched = Raise e ↔ fetch_raises r e)
  ∧ fetched ≠ OutOfFuel.
Proof.
  intros ->. destruct r as [|status_code text|e].
  - split; [| split; [| split]]; [| | | discriminate].
    + split; [by left | reflexivity].
    + intros soup. split; [discriminate | intros (? & ? & _); discriminate].
    + intros e. split; [discriminate |]. intros [|(? & ? & _)]; discriminate.
  - destruct (raise_for_status status_code) eqn:E.
    + apply raise_for_status_true in E.
      split; [| split; [| split]]; [| | | discriminate].
      * split; [| reflexivity]. intros _. right. by exists status_code, text.
      * intros soup. split; [discriminate |].
        intros (st & [= <- _] & Hst). contradiction.
      * intros e. split; [discriminate |].
        intros [| (st & [= <- _] & Hst)]; [discriminate | contradiction].
    + apply raise_for_status_false in E. destruct text as [soup|e].
      * split; [| split; [| split]]; [| | | discriminate].
        -- split; [discriminate |].
           intros [|(st & tx & [= <- _] & Hst)]; [discriminate | contradiction].
        -- intros soup'. split.
           ++ intros [= <-]. by exists status_code.
           ++ by intros (st & [= <- <-] & _).
        -- intros e. split; [discriminate |].
           intros [| (st & ? & _)]; discriminate.
      * split; [| split; [| split]]; [| | | discriminate].
        -- split; [discriminate |].
           intros [|(st & tx & [= <- _] & Hst)]; [discriminate | contradiction].
        -- intros soup. split; [discriminate |]. intros (st & ? & _). discriminate.
        -- intros e'. split.
           ++ intros [= <-]. right. by exists status_code.
           ++ intros [| (st & [= <- <-] & _)]; [discriminate | reflexivity].
  - split; [| split; [| split]]; [| | | discriminate].
    + split; [discriminate |]. intros [|(? & ? & ? & _)]; discriminate.
    + intros soup. split; [discriminate | intros (? & ? & _); discriminate].
    + intros e'. split.
      * intros [= <-]. by left.
      * intros [[= <-] | (? & ? & _)]; [reflexivity | discriminate].
Qed.

Lemma get_book_response_cases (book_url : string) (session : Session) (timeout : Z) :
  (_get_book_response book_url session timeout = Ok None
   ↔ fetch_fails (session book_url (Some timeout)))
  ∧ (∀ soup, _get_book_response book_url session timeout = Ok (Some soup)
             ↔ fetch_gives (session book_url (Some timeout)) soup)
  ∧ (∀ e, _get_book_response book_url session timeout = Raise e
          ↔ fetch_raises (session book_url (Some timeout)) e)
  ∧ _get_book_response book_url session timeout ≠ OutOfFuel.
Proof.
  apply fetched_cases. unfold _get_book_response.
  by destruct (session book_url (Some timeout)).
Qed.

Lemma get_book_response_None (book_url : string) (session : Session) (timeout : Z) :
  _get_book_response book_url session timeout = Ok None
  ↔ fetch_fails (session book_url (Some timeout)).
Proof. apply get_book_response_cases. Qed.

Lemma get_book_response_Some (book_url : string) (session : Session) (timeout : Z)
    (soup : node) :
  _get_book_response book_url session timeout = Ok (Some soup)
  ↔ fetch_gives (session book_url (Some timeout)) soup.
Proof. apply get_book_response_cases. Qed.

Lemma get_book_response_Raise (book_url : string) (session : Session) (timeout : Z)
    (e : exn) :
  _get_book_response book_url session timeout = Raise e
  ↔ fetch_raises (session book_url (Some timeout)) e.
Proof. apply get_book_response_cases. Qed.

(** With a page and its main-info block at hand the record is the literal of
    the five fields, updated with the table. *)
Lemma get_book_data_found (book_url : string) (session : Session) (timeout : Z)
    (soup main_info : node) :
  _get_book_response book_url session timeout = Ok (Some soup) →
  find product_main soup = Some main_info →
  ∃ price stock rate description,
    get_book_data book_url session timeout
    = Ok (Dict.update
            [("Book name", _get_attr_text main_info "h1" no_keywords);
             ("Book price", price);
             ("In stock amount", stock);
             ("Rate", rate);
             ("Book description", description)]
            (_collect_additional_info soup)).
Proof.
  intros Hresp Hmain. unfold get_book_data. rewrite Hresp.
  cbn [mbind outcome_bind]. rewrite Hmain.
  destruct (get_rate_returns main_info "p" (class_is (MStr "star-rating")))
    as [rate ->]; [simpl; discriminate |].
  simpl. eauto 6.
Qed.

(** What [get_book_data] does in each of the three ways the fetch ends. *)
Lemma get_book_data_fails (book_url : string) (session : Session) (timeout : Z) :
  fetch_fails (session book_url (Some timeout)) →
  get_book_data book_url session timeout = Ok [].
Proof.
  intros Hfail. apply get_book_response_None in Hfail.
  unfold get_book_data. by rewrite Hfail.
Qed.

Lemma get_book_data_raises (book_url : string) (session : Session) (timeout : Z)
    (e : exn) :
  fetch_raises (session book_url (Some timeout)) e →
  get_book_data book_url session timeout = Raise e.
Proof.
  intros Hraise. apply get_book_response_Raise in Hraise.
  unfold get_book_data. by rewrite Hraise.
Qed.

Lemma get_book_data_gives (book_url : string) (session : Session) (timeout : Z)
    (soup : node) :
  fetch_gives (session book_url (Some timeout)) soup →
  ∃ record,
    get_book_data book_url session timeout = Ok record
    ∧ (record = [] ↔ find product_main soup = None).
Proof.
  intros Hgives. apply get_book_response_Some in Hgives.
  destruct (find product_main soup) as [main_info|] eqn:Hmain.
  - destruct (get_book_data_found _ _ _ _ _ Hgives Hmain)
      as (price & stock & rate & description & Hrecord).
    eexists. split; [exact Hrecord |]. split; [| discriminate].
    intros Hempty. exfalso.
    pose proof (DictFacts.length_update_ge (_collect_additional_info soup)
      [("Book name", _get_attr_text main_info "h1" no_keywords);
       ("Book price", price); ("In stock amount", stock);
       ("Rate", rate); ("Book description", description)]) as Hlen.
    rewrite Hempty in Hlen. simpl in Hlen. lia.
  - exists []. unfold get_book_data. rewrite Hgives.
    cbn [mbind outcome_bind]. by rewrite Hmain.
Qed.

(** The extraction has no loop of its own: it returns or raises. *)
Lemma get_book_data_fuel (book_url : string) (session : Session) (timeout : Z) :
  get_book_data book_url session timeout ≠ OutOfFuel.
Proof.
  destruct (fetch_cases (session book_url (Some timeout)))
    as [Hfail | [[soup Hgives] | [e Hraise]]].
  - by rewrite get_book_data_fails.
  - by destruct (get_book_data_gives _ _ _ _ Hgives) as (record & -> & _).
  - by rewrite (get_book_data_raises _ _ _ e).
Qed.

(** C1. For a detail page whose fetch succeeds and which has a main-info
    block, [get_book_data] returns a record whose keys are, in order and
    without repetition, the five fixed keys followed by the keys of the
    additional-info mapping that are not fixed keys; those keys are the
    non-empty header texts of the table rows.  When no row is headed "Book
    name", the value of "Book name" is the stripped text of the heading.
    When the header texts of the rows are non-empty, pairwise distinct and
    none of them a fixed key, the record has the five fixed entries and one
    entry per row. *)
Theorem get_book_data_record (book_url : string) (session : Session) (timeout : Z)
    (soup main_info : node) :
  fetch_gives (session book_url (Some timeout)) soup →
  find product_main soup = Some main_info →
  ∃ record,
    get_book_data book_url session timeout = Ok record
    ∧ Dict.keys record
      = fixed_keys
        ++ filter (fun k => k ∉ fixed_keys) (Dict.keys (_collect_additional_info soup))
    ∧ NoDup (Dict.keys record)
    ∧ (∀ key, key ∈ Dict.keys (_collect_additional_info soup)
              ↔ key ≠ ""
                ∧ ∃ table row,
                    find additional_info_table soup = Some table
                    ∧ row ∈ find_all (by_tag "tr") table
                    ∧ row_key row = key)
    ∧ ("Book name" ∉ Dict.keys (_collect_additional_info soup) →
       ∀ h1, find (by_tag "h1") main_info = Some h1 →
             Dict.get record "Book name" = Some (get_text true h1))
    ∧ (∀ table,
          find additional_info_table soup = Some table →
          NoDup (map row_key (find_all (by_tag "tr") table)) →
          Forall (fun row => row_key row ≠ "" ∧ row_key row ∉ fixed_keys)
                 (find_all (by_tag "tr") table) →
          Dict.keys record = fixed_keys ++ map row_key (find_all (by_tag "tr") table)
          ∧ length record = (5 + length (find_all (by_tag "tr") table))%nat).
Proof.
  intros Hfetch Hmain. apply get_book_response_Some in Hfetch.
  destruct (get_book_data_found _ _ _ _ _ Hfetch Hmain)
    as (price & stock & rate & description & Hrecord).
  eexists. split; [exact Hrecord |].
  assert (Hkeys : Dict.keys
            (Dict.update
               [("Book name", _get_attr_text main_info "h1" no_keywords);
                ("Book price", price); ("In stock amount", stock);
                ("Rate", rate); ("Book description", description)]
               (_collect_additional_info soup))
          = fixed_keys
            ++ filter (fun k => k ∉ fixed_keys) (Dict.keys (_collect_additional_info soup))).
  { by rewrite DictFacts.keys_update by apply additional_info_NoDup. }
  split; [exact Hkeys |]. split; [| split; [| split]].
  - rewrite Hkeys. apply NoDup_app. split; [| split].
    + apply (bool_decide_unpack _). by vm_compute.
    + intros x Hx Hf. by apply list_elem_of_filter in Hf as [Hf _].
    + apply NoDup_filter, additional_info_NoDup.
  - intros key. unfold _collect_additional_info.
    destruct (find additional_info_table soup) as [table|].
    + rewrite additional_rows_keys. split.
      * intros (Hkey & row & Hin & Hrow). split; [assumption |]. by exists table, row.
      * intros (Hkey & table' & row & [= <-] & Hin & Hrow). split; [assumption |].
        by exists row.
    + split; [intros H; by apply elem_of_nil in H |].
      intros (_ & ? & ? & ? & _). discriminate.
  - intros Hno h1 Hh1. apply DictFacts.get_None_keys in Hno.
    rewrite DictFacts.get_update_None by assumption.
    simpl. unfold _get_attr_text. fold (by_tag "h1"). by rewrite Hh1.
  - intros table Htable Hnd Hrows.
    assert (Hall : Dict.keys (_collect_additional_info soup)
                   = map row_key (find_all (by_tag "tr") table)).
    { unfold _collect_additional_info. rewrite Htable.
      apply additional_rows_keys_distinct; [assumption |].
      eapply Forall_impl; [exact Hrows | by intros row [? _]]. }
    assert (Hfinal : Dict.keys
              (Dict.update
                 [("Book name", _get_attr_text main_info "h1" no_keywords);
                  ("Book price", price); ("In stock amount", stock);
                  ("Rate", rate); ("Book description", description)]
                 (_collect_additional_info soup))
            = fixed_keys ++ map row_key (find_all (by_tag "tr") table)).
    { rewrite Hkeys, Hall. f_equal. apply filter_all.
      apply Forall_fmap. eapply Forall_impl; [exact Hrows | by intros row [_ ?]]. }
    split; [exact Hfinal |].
    apply (f_equal length) in Hfinal. unfold Dict.keys in Hfinal at 1.
    rewrite length_map, length_app, length_map in Hfinal. exact Hfinal.
Qed.


Lemma get_book_data_record_witness :
  fetch_gives (Sample.session "plain" (Some 10)) Sample.plain_page
  ∧ find product_main Sample.plain_page = Some Sample.main_info
  ∧ ∃ record,
      get_book_data "plain" Sample.session 10 = Ok record
      ∧ Dict.keys record = fixed_keys ++ ["UPC"; "Tax"]
      ∧ Dict.get record "Book name" = Some "Sonnets".
Proof.
  assert (Hfetch : fetch_gives (Sample.session "plain" (Some 10)) Sample.plain_page).
  { exists 200. split; [reflexivity | lia]. }
  split; [exact Hfetch |]. split; [reflexivity |].
  destruct (get_book_data_record "plain" Sample.session 10 Sample.plain_page
              Sample.main_info Hfetch eq_refl)
    as (record & Hrecord & Hkeys & _ & _ & Hname & _).
  exists record. split; [exact Hrecord |]. split.
  - rewrite Hkeys. reflexivity.
  - apply (Hname ltac:(apply (bool_decide_unpack _); by vm_compute)
                  (Sample.text_tag "h1" " Sonnets ") eq_refl).
Defined.

(** One table row, headed by the name key: the record has the five fixed
    entries and no sixth, and its name is the table's, not the heading's. *)
Lemma get_book_data_clash_counterexample :
  fetch_gives (Sample.session "clash" (Some 10)) Sample.clash_page
  ∧ find product_main Sample.clash_page = Some Sample.main_info
  ∧ find additional_info_table Sample.clash_page = Some (Sample.table_of [Sample.clash_row])
  ∧ find_all (by_tag "tr") (Sample.table_of [Sample.clash_row]) = [Sample.clash_row]
  ∧ find (by_tag "h1") Sample.main_info = Some (Sample.text_tag "h1" " Sonnets ")
  ∧ ∃ record,
      get_book_data "clash" Sample.session 10 = Ok record
      ∧ length record ≠ (5 + length [Sample.clash_row])%nat
      ∧ Dict.get record "Book name"
        ≠ Some (get_text true (Sample.text_tag "h1" " Sonnets ")).
Proof.
  split; [exists 200; split; [reflexivity | lia] |].
  do 4 (split; [reflexivity |]).
  eexists. split; [reflexivity |]. split; [vm_compute; discriminate |].
  vm_compute. discriminate.
Qed.

(** C4. What [get_book_data] does is settled by the way the fetch ends,
    and the fetch ends in one of three ways.  When the fetch fails with a
    [RequestException] or a 4xx or 5xx status, the call returns the empty
    record.  When the fetch gives a page, the call returns a record, which is
    empty exactly when the page has no main-info block.  When [session.get]
    raises an exception outside the [RequestException] family, or the parser
    rejects the body, the call raises that exception.  So the call raises
    only such an exception, and a record it returns is empty exactly when the
    fetch failed or the fetched page has no main-info block. *)
Theorem get_book_data_outcome (book_url : string) (session : Session) (timeout : Z) :
  (fetch_fails (session book_url (Some timeout))
   ∨ (∃ soup, fetch_gives (session book_url (Some timeout)) soup)
   ∨ (∃ e, fetch_raises (session book_url (Some timeout)) e))
  ∧ (fetch_fails (session book_url (Some timeout)) →
     get_book_data book_url session timeout = Ok [])
  ∧ (∀ soup, fetch_gives (session book_url (Some timeout)) soup →
       ∃ record,
         get_book_data book_url session timeout = Ok record
         ∧ (record = [] ↔ find product_main soup = None))
  ∧ (∀ e, get_book_data book_url session timeout = Raise e
          ↔ fetch_raises (session book_url (Some timeout)) e)
  ∧ get_book_data book_url session timeout ≠ OutOfFuel
  ∧ (∀ record,
       get_book_data book_url session timeout = Ok record →
       (record = []
        ↔ fetch_fails (session book_url (Some timeout))
          ∨ ∃ soup, fetch_gives (session book_url (Some timeout)) soup
                    ∧ find product_main soup = None)).
Proof.
  split; [apply fetch_cases |]. split; [apply get_book_data_fails |].
  split; [apply get_book_data_gives |]. split; [| split; [apply get_book_data_fuel |]].
  - intros e. split; [| apply get_book_data_raises].
    intros Hraise.
    destruct (fetch_cases (session book_url (Some timeout)))
      as [Hfail | [[soup Hgives] | [e' Hraise']]].
    + rewrite get_book_data_fails in Hraise by assumption. discriminate.
    + destruct (get_book_data_gives _ _ _ _ Hgives) as (record & Hrecord & _).
      rewrite Hrecord in Hraise. discriminate.
    + rewrite (get_book_data_raises _ _ _ e' Hraise') in Hraise.
      by injection Hraise as <-.
  - intros record Hrecord.
    destruct (fetch_cases (session book_url (Some timeout)))
      as [Hfail | [[soup Hgives] | [e Hraise]]].
    + rewrite get_book_data_fails in Hrecord by assumption.
      injection Hrecord as <-. split; [by left | reflexivity].
    + destruct (get_book_data_gives _ _ _ _ Hgives) as (record' & Hrecord' & Hempty).
      rewrite Hrecord' in Hrecord. injection Hrecord as <-.
      rewrite Hempty. split.
      * intros Hnone. right. by exists soup.
      * intros [Hfail | (soup' & Hgives' & Hnone)].
        -- by destruct (fetch_fails_not_gives _ _ Hfail Hgives).
        -- by rewrite (fetch_gives_inj _ _ _ Hgives Hgives').
    + rewrite (get_book_data_raises _ _ _ e Hraise) in Hrecord. discriminate.
Qed.

(** A timeout of zero on a transport that checks it: the [ValueError] of
    the check is no [RequestException], and the call raises it. *)
Lemma get_book_data_timeout_counterexample :
  Sample.strict "plain" (Some 0)
  = Raises
      (ValueError
         "Attempted to set connect timeout to 0, but the timeout cannot be set to a value less than or equal to 0.")
  ∧ get_book_data "plain" Sample.strict 0
    = Raise
        (ValueError
           "Attempted to set connect timeout to 0, but the timeout cannot be set to a value less than or equal to 0.").
Proof. split; reflexivity. Qed.

(** A body the parser rejects, behind a status of 200: the call raises what
    the parser raises. *)
Lemma get_book_data_rejected_markup :
  get_book_data "garbled" Sample.garbled default_timeout
  = Raise (ParserRejectedMarkup "unknown status keyword 'x' in marked section").
Proof. reflexivity. Qed.

(** The future of a link whose extraction returns holds its record. *)
Lemma get_book_data_record_of (session : Session) (link : string) (record : dict) :
  get_book_data link session default_timeout = Ok record →
  record_of session link = record.
Proof. unfold record_of. by intros ->. Qed.

(** ** The links of a listing page *)

Lemma mapM_Ok {A B} (f : A → outcome B) (g : A → B) (l : list A) :
  (∀ x, x ∈ l → f x = Ok (g x)) → mapM f l = Ok (map g l).
Proof.
  induction l as [|x l IH]; intros Hf; [reflexivity |].
  simpl. rewrite (Hf x) by apply list_elem_of_here.
  rewrite IH; [reflexivity |]. intros y Hy. apply Hf. by apply list_elem_of_further.
Qed.

Lemma mapM_cons {A B} (f : A → outcome B) (x : A) (l : list A) :
  mapM f (x :: l) = y ← f x; k ← mapM f l; Ok (y :: k).
Proof. reflexivity. Qed.

Lemma mapM_ext {A B} (f g : A → outcome B) (l : list A) :
  (∀ x, f x = g x) → mapM f l = mapM g l.
Proof.
  intros Hfg. induction l as [|x l IH]; [reflexivity |].
  by rewrite !mapM_cons, Hfg, IH.
Qed.

Lemma mapM_fmap {A B C} (f : B → outcome C) (h : A → B) (l : list A) :
  mapM f (map h l) = mapM (fun x => f (h x)) l.
Proof.
  induction l as [|x l IH]; [reflexivity |].
  cbn [map]. by rewrite !mapM_cons, IH.
Qed.

Lemma mapM_Ok_inv {A B} (f : A → outcome B) (l : list A) (out : list B) :
  mapM f l = Ok out → Forall2 (fun x y => f x = Ok y) l out.
Proof.
  revert out. induction l as [|x l IH]; intros out Hout.
  - injection Hout as <-. constructor.
  - rewrite mapM_cons in Hout. destruct (f x) as [y| |] eqn:Hx; [| discriminate..].
    cbn [mbind outcome_bind] in Hout.
    destruct (mapM f l) as [k| |]; [| discriminate..].
    injection Hout as <-. constructor; [assumption | by apply IH].
Qed.

Lemma mapM_OutOfFuel_inv {A B} (f : A → outcome B) (l : list A) :
  mapM f l = OutOfFuel → ∃ x, x ∈ l ∧ f x = OutOfFuel.
Proof.
  induction l as [|x l IH]; intros Hout; [discriminate |].
  rewrite mapM_cons in Hout. destruct (f x) as [y| |] eqn:Hx; [| discriminate |].
  - cbn [mbind outcome_bind] in Hout.
    destruct (mapM f l) as [k| |]; [discriminate.. |].
    destruct (IH eq_refl) as (x' & Hin & Hx'). exists x'.
    split; [by apply list_elem_of_further | assumption].
  - exists x. split; [apply list_elem_of_here | assumption].
Qed.

Lemma mapM_app {A B} (f : A → outcome B) (l1 l2 : list A) :
  mapM f (l1 ++ l2) = out1 ← mapM f l1; out2 ← mapM f l2; Ok (out1 ++ out2).
Proof.
  induction l1 as [|x l1 IH].
  - simpl. by destruct (mapM f l2).
  - cbn [app]. rewrite !mapM_cons, IH.
    destruct (f x) as [y| |]; [| reflexivity..]. cbn [mbind outcome_bind].
    destruct (mapM f l1) as [k| |]; [| reflexivity..]. cbn [mbind outcome_bind].
    by destruct (mapM f l2).
Qed.

(** Running a list piece by piece and gluing the results is running it. *)
Lemma mapM_concat {A B C} (f : B → outcome C) (piece : A → list B) (l : list A) :
  @concat _ <$> mapM (fun k => mapM f (piece k)) l = mapM f (concat (map piece l)).
Proof.
  induction l as [|k l IH]; [reflexivity |].
  cbn [map concat]. rewrite mapM_cons, mapM_app, <- IH.
  destruct (mapM f (piece k)) as [out| |]; [| reflexivity..].
  cbn [mbind outcome_bind]. by destruct (mapM (fun k => mapM f (piece k)) l).
Qed.

Lemma search_h3_is_heading (n : node) : search (by_tag "h3") n = is_heading n.
Proof.
  destruct n as [s | name cls attrs cs]; [reflexivity |].
  simpl. by rewrite !andb_true_r.
Qed.

Lemma find_all_h3 (soup : node) :
  find_all (by_tag "h3") soup = List.filter is_heading (descendants soup).
Proof.
  unfold find_all. induction (descendants soup) as [|n l IH]; [reflexivity |].
  simpl. by rewrite search_h3_is_heading, IH.
Qed.

(** Every anchor the search returns has its [href], so the generator never
    raises on the subscript. *)
Lemma search_anchor_with_href (a : node) :
  if search anchor_with_href a
  then ∃ href, anchor_href a = Some href ∧ get_href a = Ok href
  else anchor_href a = None.
Proof.
  destruct a as [s | name cls attrs cs]; [reflexivity |].
  unfold search, anchor_href, tag_name, tag_attr, get_href.
  cbn [s_name s_class s_attrs anchor_with_href SoupStrainer class_ others forallb].
  destruct (String.eqb name "a"); [| reflexivity].
  destruct (get_attr attrs "href") as [href|]; [| reflexivity].
  simpl. by exists href.
Qed.

Lemma heading_links_anchors (l : list node) :
  mapM (fun a => href ← get_href a; Ok (base_url +:+ href))
       (List.filter (search anchor_with_href) l)
  = Ok (omap (fun a => String.append base_url <$> anchor_href a) l).
Proof.
  induction l as [|a l IH]; [reflexivity |].
  pose proof (search_anchor_with_href a) as Ha.
  cbn [List.filter omap list_omap]. destruct (search anchor_with_href a).
  - destruct Ha as (href & -> & Hget). cbn [mapM]. rewrite Hget.
    unfold mapM in IH |- *. cbn [mbind outcome_bind]. rewrite IH. reflexivity.
  - rewrite Ha. exact IH.
Qed.

Lemma heading_links_list (h3 : node) :
  heading_links h3
  = Ok (omap (fun a => String.append base_url <$> anchor_href a) (descendants h3)).
Proof. apply heading_links_anchors. Qed.

Lemma collect_links_fold (headings : list node) (links : gset string) :
  fold_left
    (fun (acc : outcome (gset string)) h3 =>
       links ← acc;
       found ← heading_links h3;
       Ok (links ∪ list_to_set found))
    headings (Ok links)
  = Ok (links ∪ list_to_set
          (flat_map
             (fun h3 => omap (fun a => String.append base_url <$> anchor_href a)
                          (descendants h3))
             headings)).
Proof.
  revert links. induction headings as [|h3 headings IH]; intros links.
  - simpl. by rewrite union_empty_r_L.
  - cbn [fold_left flat_map]. rewrite heading_links_list.
    cbn [mbind outcome_bind]. rewrite IH. f_equal.
    by rewrite list_to_set_app_L, (assoc_L (∪)).
Qed.

Lemma collect_links_from_page_list (soup : node) :
  _collect_links_from_page soup = Ok (list_to_set (page_links_list soup)).
Proof.
  unfold _collect_links_from_page, page_links_list.
  rewrite collect_links_fold, find_all_h3. by rewrite union_empty_l_L.
Qed.

Lemma elem_of_page_links_list (soup : node) (url : string) :
  url ∈ page_links_list soup
  ↔ ∃ h3 a href,
      h3 ∈ descendants soup ∧ tag_name h3 = Some "h3"
      ∧ a ∈ descendants h3 ∧ tag_name a = Some "a"
      ∧ tag_attr a "href" = Some href
      ∧ url = "https://books.toscrape.com/catalogue/" +:+ href.
Proof.
  unfold page_links_list. rewrite list_elem_of_In, in_flat_map. split.
  - intros (h3 & Hh3 & Hurl). apply filter_In in Hh3 as [Hh3 Hhead].
    apply list_elem_of_In, list_elem_of_omap in Hurl as (a & Ha & Hhref).
    unfold anchor_href in Hhref. unfold is_heading in Hhead.
    destruct (tag_name h3) as [hname|] eqn:Ehn; [| discriminate].
    apply String.eqb_eq in Hhead as ->.
    destruct (tag_name a) as [aname|] eqn:Ean; [| discriminate].
    destruct (String.eqb_spec aname "a") as [->|]; [| discriminate].
    destruct (tag_attr a "href") as [href|] eqn:Ehref; [| discriminate].
    injection Hhref as <-.
    exists h3, a, href. rewrite list_elem_of_In. by repeat split.
  - intros (h3 & a & href & Hh3 & Hname & Ha & Haname & Hhref & ->).
    exists h3. split.
    + apply filter_In. split; [by apply list_elem_of_In |].
      unfold is_heading. by rewrite Hname.
    + apply list_elem_of_In, list_elem_of_omap. exists a. split; [assumption |].
      unfold anchor_href. by rewrite Haname, Hhref.
Qed.

(** C9. The detail URLs collected from a listing page are exactly the [href]
    attributes of the anchors found inside its [h3] headings, each one
    prefixed by the catalogue base path. *)
Theorem collect_links_from_page_hrefs (soup : node) :
  ∃ links,
    _collect_links_from_page soup = Ok links
    ∧ ∀ url,
        url ∈ links
        ↔ ∃ h3 a href,
            h3 ∈ descendants soup ∧ tag_name h3 = Some "h3"
            ∧ a ∈ descendants h3 ∧ tag_name a = Some "a"
            ∧ tag_attr a "href" = Some href
            ∧ url = "https://books.toscrape.com/catalogue/" +:+ href.
Proof.
  exists (list_to_set (page_links_list soup)).
  split; [apply collect_links_from_page_list |].
  intros url. rewrite elem_of_list_to_set. apply elem_of_page_links_list.
Qed.



(** ** The pagination loop *)

Lemma process_page_cases (session : Session) (page_num links_amount : Z) :
  (_process_page session page_num links_amount = Ok None
   ↔ fetch_fails (session (page_url page_num) None))
  ∧ (∀ page, _process_page session page_num links_amount = Ok (Some page)
             ↔ fetch_gives (session (page_url page_num) None) page)
  ∧ (∀ e, _process_page session page_num links_amount = Raise e
          ↔ fetch_raises (session (page_url page_num) None) e)
  ∧ _process_page session page_num links_amount ≠ OutOfFuel.
Proof.
  apply fetched_cases. unfold _process_page.
  destruct (session (page_url page_num) None) as [|status_code text|e];
    [reflexivity | | reflexivity].
  destruct (raise_for_status status_code); [| reflexivity].
  by destruct (status_code =? NOT_FOUND_STATUS_CODE).
Qed.

Lemma process_page_None (session : Session) (page_num links_amount : Z) :
  _process_page session page_num links_amount = Ok None
  ↔ fetch_fails (session (page_url page_num) None).
Proof. apply process_page_cases. Qed.

Lemma process_page_Some (session : Session) (page_num links_amount : Z) (page : node) :
  _process_page session page_num links_amount = Ok (Some page)
  ↔ fetch_gives (session (page_url page_num) None) page.
Proof. apply process_page_cases. Qed.

Lemma process_page_Raise (session : Session) (page_num links_amount : Z) (e : exn) :
  _process_page session page_num links_amount = Raise e
  ↔ fetch_raises (session (page_url page_num) None) e.
Proof. apply process_page_cases. Qed.

Lemma loop_turn_break (session : Session) (page_num : Z) (links : gset string) :
  fetch_fails (session (page_url page_num) None) →
  loop_turn session page_num links = Ok (Break links).
Proof.
  intros Hfail. unfold loop_turn.
  by apply (process_page_None session page_num (Z.of_nat (size links))) in Hfail as ->.
Qed.

(** An exception the [except] clauses do not catch leaves the turn, and the
    loop with it. *)
Lemma loop_turn_raise (session : Session) (page_num : Z) (links : gset string)
    (e : exn) :
  fetch_raises (session (page_url page_num) None) e →
  loop_turn session page_num links = Raise e.
Proof.
  intros Hraise. unfold loop_turn.
  by apply (process_page_Raise session page_num (Z.of_nat (size links))) in Hraise as ->.
Qed.

Lemma loop_turn_continue (session : Session) (page_num : Z) (links : gset string)
    (page : node) :
  fetch_gives (session (page_url page_num) None) page →
  loop_turn session page_num links
  = Ok (Continue (page_num + 1) (links ∪ list_to_set (page_links_list page))).
Proof.
  intros Hpage. unfold loop_turn.
  apply (process_page_Some session page_num (Z.of_nat (size links))) in Hpage as ->.
  cbn [mbind outcome_bind]. by rewrite collect_links_from_page_list.
Qed.

(** Over a run of pages that are served, followed by a fetch that fails, the
    loop returns what it had plus the links of those pages. *)
Lemma collect_loop_pages (session : Session) (pages : list node) :
  ∀ (start : Z) (links : gset string) (fuel : nat),
    (∀ k page, pages !! k = Some page →
               fetch_gives (session (page_url (start + Z.of_nat k)) None) page) →
    fetch_fails (session (page_url (start + Z.of_nat (length pages))) None) →
    (length pages < fuel)%nat →
    collect_loop fuel session start links
    = Ok (links ∪ list_to_set (flat_map page_links_list pages)).
Proof.
  induction pages as [|page pages IH]; intros start links fuel Hpages Hend Hfuel.
  - destruct fuel as [|fuel]; [simpl in Hfuel; lia |].
    simpl in Hend. rewrite Z.add_0_r in Hend.
    cbn [collect_loop]. rewrite loop_turn_break by assumption.
    simpl. by rewrite union_empty_r_L.
  - destruct fuel as [|fuel]; [simpl in Hfuel; lia |].
    cbn [collect_loop].
    rewrite (loop_turn_continue session start links page).
    2:{ specialize (Hpages 0%nat page eq_refl). by rewrite Z.add_0_r in Hpages. }
    cbn [mbind outcome_bind]. rewrite IH.
    + cbn [flat_map]. by rewrite list_to_set_app_L, (assoc_L (∪)).
    + intros k p Hk. specialize (Hpages (S k) p Hk).
      by replace (start + 1 + Z.of_nat k) with (start + Z.of_nat (S k)) by lia.
    + by replace (start + 1 + Z.of_nat (length pages))
        with (start + Z.of_nat (length (page :: pages))) by (simpl; lia).
    + simpl in Hfuel. lia.
Qed.

Lemma size_list_to_set_remove_dups (l : list string) :
  size (list_to_set (C := gset string) l) = length (remove_dups l).
Proof.
  rewrite <- (size_list_to_set (C := gset string) (remove_dups l))
    by apply NoDup_remove_dups.
  f_equal. apply set_eq. intros x.
  by rewrite !elem_of_list_to_set, elem_of_remove_dups.
Qed.

(** C3. On a catalogue whose pages [start .. start + P - 1] are served and
    whose page [start + P] answers 404, the collection returns as soon as the
    fuel covers the [P + 1] fetches.  The set it returns holds the detail URLs
    of those pages and nothing else, and its size is the number of distinct
    URLs among them. *)
Theorem collect_all_links_catalogue (session : Session) (pages : list node)
    (start : Z) (fuel : nat) :
  (∀ k page, pages !! k = Some page →
             fetch_gives (session (page_url (start + Z.of_nat k)) None) page) →
  (∃ text, session (page_url (start + Z.of_nat (length pages))) None
           = Response NOT_FOUND_STATUS_CODE text) →
  (length pages < fuel)%nat →
  ∃ links,
    _collect_all_books_links fuel session start = Ok links
    ∧ (∀ url, url ∈ links ↔ ∃ page, page ∈ pages ∧ url ∈ page_links_list page)
    ∧ size links = length (remove_dups (flat_map page_links_list pages)).
Proof.
  intros Hpages [text Hend] Hfuel.
  exists (list_to_set (flat_map page_links_list pages)).
  split; [| split].
  - unfold _collect_all_books_links.
    rewrite (collect_loop_pages session pages start ∅ fuel Hpages); [| | assumption].
    + by rewrite union_empty_l_L.
    + right. exists NOT_FOUND_STATUS_CODE, text. split; [assumption |].
      unfold NOT_FOUND_STATUS_CODE. lia.
  - intros url. rewrite elem_of_list_to_set, list_elem_of_In, in_flat_map.
    split; intros (page & Hpage & Hurl); exists page.
    + split; [by apply list_elem_of_In | by apply list_elem_of_In].
    + split; [by apply list_elem_of_In | by apply list_elem_of_In].
  - apply size_list_to_set_remove_dups.
Qed.

Lemma collect_all_links_catalogue_witness :
  (length [Sample.page_one; Sample.page_two] < 3)%nat
  ∧ ∃ links,
      _collect_all_books_links 3 Sample.session 1 = Ok links ∧ size links = 3%nat.
Proof.
  split; [simpl; lia |].
  destruct (collect_all_links_catalogue Sample.session
              [Sample.page_one; Sample.page_two] 1 3)
    as (links & Hlinks & _ & Hsize).
  - intros [|[|k]] page [= <-]; exists 200; (split; [reflexivity | lia]).
  - by exists (BeautifulSoup []).
  - simpl; lia.
  - exists links. split; [exact Hlinks |]. rewrite Hsize. reflexivity.
Defined.


(** While every page is served the loop goes on, whatever the fuel. *)
Lemma collect_loop_all_served (session : Session) (fuel : nat) :
  ∀ (page_num : Z) (links : gset string),
    (∀ k : nat, ∃ page,
        fetch_gives (session (page_url (page_num + Z.of_nat k)) None) page) →
    collect_loop fuel session page_num links = OutOfFuel.
Proof.
  induction fuel as [|fuel IH]; intros page_num links Hserved; [reflexivity |].
  destruct (Hserved 0%nat) as [page Hpage]. rewrite Z.add_0_r in Hpage.
  cbn [collect_loop].
  rewrite (loop_turn_continue session page_num links page Hpage).
  cbn [mbind outcome_bind]. apply IH. intros k.
  replace (page_num + 1 + Z.of_nat k) with (page_num + Z.of_nat (S k)) by lia.
  apply Hserved.
Qed.



(** On a catalogue without end, whose pages have no anchors, the collection
    never returns. *)
Lemma collect_all_links_endless (fuel : nat) :
  _collect_all_books_links fuel Sample.endless 1 = OutOfFuel.
Proof.
  apply collect_loop_all_served. intros k. exists (BeautifulSoup []).
  exists 200. split; [reflexivity | lia].
Qed.

(** ** Ranges and slices *)

Lemma range_up_count (step : Z) :
  0 < step →
  ∀ (fuel : nat) (i stop : Z),
    stop - i ≤ Z.of_nat fuel →
    Py.range_up fuel i stop step
    = map (fun k => i + Z.of_nat k * step)
          (seq 0 (Z.to_nat ((stop - i + step - 1) / step))).
Proof.
  intros Hstep. induction fuel as [|fuel IH]; intros i stop Hfuel.
  - assert ((stop - i + step - 1) / step < 1)
      by (apply Z.div_lt_upper_bound; lia).
    by replace (Z.to_nat ((stop - i + step - 1) / step)) with 0%nat by lia.
  - cbn [Py.range_up]. destruct (Z.ltb_spec i stop) as [Hlt|Hge].
    + replace (stop - i + step - 1) with ((stop - (i + step) + step - 1) + 1 * step) by lia.
      rewrite Z.div_add by lia.
      assert (0 ≤ (stop - (i + step) + step - 1) / step)
        by (apply Z.div_pos; lia).
      replace (Z.to_nat ((stop - (i + step) + step - 1) / step + 1))
        with (S (Z.to_nat ((stop - (i + step) + step - 1) / step))) by lia.
      rewrite <- cons_seq, <- seq_shift. cbn [map]. rewrite map_map.
      rewrite IH by lia. f_equal; [lia |].
      apply map_ext. intros k. lia.
    + assert ((stop - i + step - 1) / step < 1)
        by (apply Z.div_lt_upper_bound; lia).
      by replace (Z.to_nat ((stop - i + step - 1) / step)) with 0%nat by lia.
Qed.

(** The starts of the batches: the multiples of the batch size below the
    number of links, one for each of the [ceil(N / B)] batches. *)
Lemma range_batch_starts (n : nat) (batch_size : Z) :
  0 < batch_size →
  Py.range 0 (Z.of_nat n) batch_size
  = Ok (map (fun k => Z.of_nat k * batch_size)
            (seq 0 (Z.to_nat ((Z.of_nat n + batch_size - 1) / batch_size)))).
Proof.
  intros Hb. unfold Py.range.
  destruct (Z.eqb_spec batch_size 0) as [|_]; [lia |].
  destruct (Z.ltb_spec 0 batch_size) as [_|]; [| lia].
  rewrite range_up_count by lia. rewrite Z.sub_0_r. f_equal.
Qed.

Lemma slice_take_drop {A} (l : list A) (lo n : Z) :
  0 ≤ lo → 0 ≤ n →
  Py.slice l lo (lo + n) = take (Z.to_nat n) (drop (Z.to_nat lo) l).
Proof.
  intros Hlo Hn. unfold Py.slice, Py.clamp.
  destruct (Z.ltb_spec lo 0) as [|_]; [lia |].
  destruct (Z.ltb_spec (lo + n) 0) as [|_]; [lia |].
  destruct (Z.le_gt_cases lo (Z.of_nat (length l))) as [Hin|Hout].
  - rewrite (Z.min_l lo) by assumption.
    destruct (Z.le_gt_cases (lo + n) (Z.of_nat (length l))) as [Hhi|Hhi].
    + rewrite Z.min_l by assumption. f_equal. lia.
    + rewrite Z.min_r by lia.
      rewrite !take_ge; [reflexivity | |]; rewrite length_drop; lia.
  - rewrite !Z.min_r by lia. rewrite Z.sub_diag. simpl.
    rewrite (drop_ge l (Z.to_nat lo)) by lia. by rewrite take_nil.
Qed.

(** Cutting a list into consecutive pieces of [b] and gluing them gives the
    list back, once the pieces reach its end. *)
Lemma concat_chunks {A} (b c : nat) :
  ∀ l : list A,
    (length l ≤ c * b)%nat →
    concat (map (fun k => take b (drop (k * b) l)) (seq 0 c)) = l.
Proof.
  induction c as [|c IH]; intros l Hlen.
  - simpl. destruct l; [reflexivity | simpl in Hlen; lia].
  - rewrite <- cons_seq, <- seq_shift. cbn [map concat]. rewrite map_map.
    rewrite drop_0.
    rewrite (map_ext _ (fun k => take b (drop (k * b) (drop b l)))).
    + rewrite IH; [apply take_drop |]. rewrite length_drop. lia.
    + intros k. by rewrite drop_drop.
Qed.

(** ** The batches *)

Lemma batches_cut (links : list string) (batch_size : Z) :
  0 < batch_size →
  batches links batch_size
  = Ok (map (fun k => take (Z.to_nat batch_size) (drop (k * Z.to_nat batch_size) links))
            (seq 0 (Z.to_nat ((Z.of_nat (length links) + batch_size - 1) / batch_size)))).
Proof.
  intros Hb. unfold batches. rewrite range_batch_starts by assumption.
  cbn [mbind outcome_bind]. rewrite map_map. f_equal. apply map_ext. intros k.
  rewrite slice_take_drop by lia. do 2 f_equal. lia.
Qed.

(** With a pool that can be created, a batch gives the results of its
    futures in the order of completion, up to the first that raises. *)
Lemma process_batch_results (as_completed : completion_order) (session : Session)
    (max_workers i : Z) (batch : list string) :
  0 < max_workers →
  process_batch as_completed session max_workers i batch
  = results (as_completed i (futures_of session batch)).
Proof.
  intros Hw. unfold process_batch.
  by destruct (Z.leb_spec max_workers 0) as [|_]; [lia |].
Qed.

(** When every extraction of the batch returns, the batch gives the records
    of its links in the order of completion. *)
Lemma results_collected (as_completed : completion_order) (session : Session)
    (i : Z) (batch : list string) :
  (∀ j futures, as_completed j futures ≡ₚ futures) →
  (∀ link, link ∈ batch →
           ∃ record, get_book_data link session default_timeout = Ok record) →
  results (as_completed i (futures_of session batch))
  = Ok (collected as_completed session i batch).
Proof.
  intros Hperm Hret. unfold results, collected.
  apply mapM_Ok. intros [link result] Hin.
  rewrite Hperm in Hin. apply list_elem_of_fmap in Hin as (l & [= -> ->] & Hl).
  simpl. destruct (Hret l Hl) as [record Hrecord].
  by rewrite (get_book_data_record_of session l record Hrecord).
Qed.

(** A batch whose futures all hold a result does not run out of fuel. *)
Lemma results_fuel (as_completed : completion_order) (session : Session)
    (i : Z) (batch : list string) :
  (∀ j futures, as_completed j futures ≡ₚ futures) →
  results (as_completed i (futures_of session batch)) ≠ OutOfFuel.
Proof.
  intros Hperm Hres. apply mapM_OutOfFuel_inv in Hres as ([l result] & Hin & Hout).
  rewrite Hperm in Hin. apply list_elem_of_fmap in Hin as (l' & [= -> ->] & _).
  simpl in Hout. by apply get_book_data_fuel in Hout.
Qed.

(** A batch with an extraction that raises raises. *)
Lemma results_raise (as_completed : completion_order) (session : Session)
    (i : Z) (batch : list string) (link : string) (e : exn) :
  (∀ j futures, as_completed j futures ≡ₚ futures) →
  link ∈ batch →
  get_book_data link session default_timeout = Raise e →
  ∃ e', results (as_completed i (futures_of session batch)) = Raise e'.
Proof.
  intros Hperm Hlink Hraise. unfold results.
  destruct (mapM (fun fut : future => snd fut)
              (as_completed i (futures_of session batch))) as [out|e'|] eqn:Hres.
  - exfalso. apply mapM_Ok_inv in Hres.
    assert (Hin : (link, get_book_data link session default_timeout)
                  ∈ as_completed i (futures_of session batch)).
    { rewrite Hperm. unfold futures_of. apply list_elem_of_fmap. by exists link. }
    apply list_elem_of_lookup in Hin as [k Hk].
    destruct (Forall2_lookup_l _ _ _ _ _ Hres Hk) as (record & _ & Hrecord).
    simpl in Hrecord. congruence.
  - by exists e'.
  - exfalso. by apply (results_fuel as_completed session i batch Hperm).
Qed.

Lemma collected_Permutation (as_completed : completion_order) (session : Session)
    (i : Z) (batch : list string) :
  (∀ j futures, as_completed j futures ≡ₚ futures) →
  collected as_completed session i batch ≡ₚ map (record_of session) batch.
Proof.
  intros Hperm. unfold collected.
  change (map (fun fut : future => record_of session (fst fut)))
    with (fmap (M := list) (fun fut : future => record_of session (fst fut))).
  rewrite Hperm. by rewrite map_map.
Qed.

(** Once the accumulator holds no list the loop over the batches keeps it. *)
Lemma process_batches_fold_stuck {A} (step : A → outcome (list dict)) (l : list A)
    (acc : outcome (list dict)) :
  (∀ all_books_data, acc ≠ Ok all_books_data) →
  fold_left
    (fun (acc : outcome (list dict)) i =>
       all_books_data ← acc;
       collected ← step i;
       Ok (all_books_data ++ collected))
    l acc
  = acc.
Proof.
  revert acc. induction l as [|i l IH]; intros acc Hacc; [reflexivity |].
  cbn [fold_left]. destruct acc as [a| |]; [by destruct (Hacc a) | |];
    cbn [mbind outcome_bind]; by apply IH.
Qed.

(** The loop over the batches runs the batches one after the other, up to
    the first that raises, and glues what they give. *)
Lemma process_batches_fold {A} (step : A → outcome (list dict)) (l : list A) :
  ∀ all_books_data : list dict,
    fold_left
      (fun (acc : outcome (list dict)) i =>
         all_books_data ← acc;
         collected ← step i;
         Ok (all_books_data ++ collected))
      l (Ok all_books_data)
    = (fun out => all_books_data ++ concat out) <$> mapM step l.
Proof.
  induction l as [|i l IH]; intros all_books_data.
  - simpl. by rewrite app_nil_r.
  - cbn [fold_left mbind outcome_bind]. rewrite mapM_cons.
    destruct (step i) as [collected|e|]; cbn [mbind outcome_bind].
    + rewrite IH. destruct (mapM step l) as [out|e|]; cbn; [| reflexivity..].
      by rewrite <- app_assoc.
    + by rewrite process_batches_fold_stuck.
    + by rewrite process_batches_fold_stuck.
Qed.

(** The whole call: the [ceil(N / B)] batches in order, batch [k] being the
    slice of [B] links at [k * B]. *)
Lemma process_books_in_batches_sequence (as_completed : completion_order)
    (links : list string) (session : Session) (batch_size max_workers : Z) :
  0 < batch_size →
  0 < max_workers →
  _process_books_in_batches as_completed links session batch_size max_workers
  = @concat _
    <$> mapM
          (fun k =>
             results
               (as_completed (Z.of_nat k * batch_size)
                  (futures_of session
                     (take (Z.to_nat batch_size)
                        (drop (k * Z.to_nat batch_size) links)))))
          (seq 0 (Z.to_nat ((Z.of_nat (length links) + batch_size - 1) / batch_size))).
Proof.
  intros Hb Hw. unfold _process_books_in_batches.
  rewrite range_batch_starts by assumption. cbn [mbind outcome_bind].
  rewrite (process_batches_fold
             (fun i => process_batch as_completed session max_workers i
                         (Py.slice links i (i + batch_size)))).
  rewrite mapM_fmap.
  rewrite (mapM_ext _
             (fun k =>
                results
                  (as_completed (Z.of_nat k * batch_size)
                     (futures_of session
                        (take (Z.to_nat batch_size)
                           (drop (k * Z.to_nat batch_size) links)))))).
  - by destruct (mapM _ _).
  - intros k. rewrite process_batch_results by assumption.
    rewrite slice_take_drop by lia.
    by replace (Z.to_nat (Z.of_nat k * batch_size)) with (k * Z.to_nat batch_size)%nat
      by lia.
Qed.

Lemma concat_Forall2_Permutation {A B} (f : A → B) (cut : list (list A))
    (out : list (list B)) :
  Forall2 (fun batch results => results ≡ₚ map f batch) cut out →
  concat out ≡ₚ map f (concat cut).
Proof.
  induction 1 as [|batch results cut out Hhead _ IH]; [reflexivity |].
  simpl. rewrite map_app. by apply Permutation_app.
Qed.

(** The number of whole and partial pieces of size [b] covers the list. *)
Lemma ceil_covers (n b : Z) :
  0 ≤ n → 0 < b → n ≤ (n + b - 1) / b * b.
Proof.
  intros Hn Hb.
  pose proof (Z.div_mod (n + b - 1) b ltac:(lia)) as Hdiv.
  pose proof (Z.mod_pos_bound (n + b - 1) b Hb) as Hmod.
  nia.
Qed.

Lemma elem_of_chunk {A} (x : A) (b k : nat) (l : list A) :
  x ∈ take b (drop k l) → x ∈ l.
Proof.
  intros Hin. apply list_elem_of_lookup in Hin as [j Hj].
  apply lookup_take_Some in Hj as [Hj _]. rewrite lookup_drop in Hj.
  by apply list_elem_of_lookup_2 in Hj.
Qed.

Lemma chunks_cover (links : list string) (batch_size : Z) :
  0 < batch_size →
  (length links
   ≤ Z.to_nat ((Z.of_nat (length links) + batch_size - 1) / batch_size)
     * Z.to_nat batch_size)%nat.
Proof.
  intros Hb.
  pose proof (ceil_covers (Z.of_nat (length links)) batch_size ltac:(lia) Hb).
  assert (0 ≤ (Z.of_nat (length links) + batch_size - 1) / batch_size)
    by (apply Z.div_pos; lia).
  nia.
Qed.

(** What the whole call returns when every extraction returns, as the
    batches give it. *)
Lemma process_books_in_batches_collected (as_completed : completion_order)
    (links : list string) (session : Session) (batch_size max_workers : Z) :
  0 < batch_size →
  0 < max_workers →
  (∀ i futures, as_completed i futures ≡ₚ futures) →
  (∀ link, link ∈ links →
           ∃ record, get_book_data link session default_timeout = Ok record) →
  _process_books_in_batches as_completed links session batch_size max_workers
  = Ok (concat
          (map (fun k => collected as_completed session (Z.of_nat k * batch_size)
                           (take (Z.to_nat batch_size)
                                 (drop (k * Z.to_nat batch_size) links)))
               (seq 0 (Z.to_nat ((Z.of_nat (length links) + batch_size - 1)
                                   / batch_size))))).
Proof.
  intros Hb Hw Hperm Hret.
  rewrite process_books_in_batches_sequence by assumption.
  rewrite (mapM_Ok _ (fun k => collected as_completed session (Z.of_nat k * batch_size)
                                 (take (Z.to_nat batch_size)
                                       (drop (k * Z.to_nat batch_size) links))));
    [reflexivity |].
  intros k _. apply results_collected; [assumption |].
  intros link Hlink. apply Hret. by apply elem_of_chunk in Hlink.
Qed.

(** An extraction that raises makes the whole call raise. *)
Lemma process_books_in_batches_raises (as_completed : completion_order)
    (links : list string) (session : Session) (batch_size max_workers : Z)
    (link : string) (e : exn) :
  0 < batch_size →
  0 < max_workers →
  (∀ i futures, as_completed i futures ≡ₚ futures) →
  link ∈ links →
  get_book_data link session default_timeout = Raise e →
  ∃ e',
    _process_books_in_batches as_completed links session batch_size max_workers
    = Raise e'.
Proof.
  intros Hb Hw Hperm Hlink Hraise.
  rewrite process_books_in_batches_sequence by assumption.
  rewrite <- (concat_chunks (Z.to_nat batch_size)
                (Z.to_nat ((Z.of_nat (length links) + batch_size - 1) / batch_size))
                links (chunks_cover links batch_size Hb)) in Hlink.
  apply list_elem_of_In, in_concat in Hlink as (batch & Hbatch & Hlink).
  apply list_elem_of_In in Hbatch, Hlink.
  apply list_elem_of_fmap in Hbatch as (k & -> & Hk).
  destruct (results_raise as_completed session (Z.of_nat k * batch_size) _ link e
              Hperm Hlink Hraise) as [e' He'].
  match goal with |- ∃ _, _ <$> ?m = _ => destruct m as [out|e''|] eqn:Hres end.
  - exfalso. apply mapM_Ok_inv in Hres.
    apply list_elem_of_lookup in Hk as [j Hj].
    destruct (Forall2_lookup_l _ _ _ _ _ Hres Hj) as (r & _ & Hr).
    simpl in Hr. congruence.
  - by exists e''.
  - exfalso. apply mapM_OutOfFuel_inv in Hres as (k' & _ & Hk').
    by apply results_fuel in Hk'.
Qed.

(** C2. With a positive batch size and a positive pool size,
    [_process_books_in_batches] cuts [ceil(N / B)] batches; batch [k] is the
    slice of at most [B] links that starts at position [k * B]; the batches
    in sequence make up the input.  The call runs these batches one after
    the other: for batch [k] it asks the futures of the links of the batch
    for their results in the order of completion, and it glues what the
    batches give.  When the futures complete in some order and every
    extraction returns, the call returns one record per link, each batch
    contributing the records of its own links.  When an extraction raises,
    the call raises. *)
Theorem process_books_in_batches_count (as_completed : completion_order)
    (links : list string) (session : Session) (batch_size max_workers : Z) :
  0 < batch_size →
  0 < max_workers →
  ∃ cut : list (list string),
    batches links batch_size = Ok cut
    ∧ Z.of_nat (length cut) = (Z.of_nat (length links) + batch_size - 1) / batch_size
    ∧ (∀ k batch,
          cut !! k = Some batch →
          batch = take (Z.to_nat batch_size) (drop (k * Z.to_nat batch_size) links)
          ∧ Z.of_nat (length batch) ≤ batch_size)
    ∧ concat cut = links
    ∧ _process_books_in_batches as_completed links session batch_size max_workers
      = @concat _
        <$> mapM
              (fun k =>
                 results
                   (as_completed (Z.of_nat k * batch_size)
                      (futures_of session
                         (take (Z.to_nat batch_size)
                            (drop (k * Z.to_nat batch_size) links)))))
              (seq 0 (length cut))
    ∧ ((∀ i futures, as_completed i futures ≡ₚ futures) →
       (∀ link, link ∈ links →
                ∃ record, get_book_data link session default_timeout = Ok record) →
       ∃ out : list (list dict),
         _process_books_in_batches as_completed links session batch_size max_workers
         = Ok (concat out)
         ∧ Forall2 (fun batch results => results ≡ₚ map (record_of session) batch)
                   cut out
         ∧ length (concat out) = length links)
    ∧ ((∀ i futures, as_completed i futures ≡ₚ futures) →
       ∀ link e,
         link ∈ links →
         get_book_data link session default_timeout = Raise e →
         ∃ e',
           _process_books_in_batches as_completed links session batch_size max_workers
           = Raise e').
Proof.
  intros Hb Hw.
  set (c := Z.to_nat ((Z.of_nat (length links) + batch_size - 1) / batch_size)).
  set (b := Z.to_nat batch_size).
  set (cut := map (fun k => take b (drop (k * b) links)) (seq 0 c)).
  assert (Hlen : length cut = c) by (subst cut; by rewrite length_map, length_seq).
  assert (Hcut : concat cut = links).
  { apply concat_chunks. subst c b. by apply chunks_cover. }
  pose proof (process_books_in_batches_sequence as_completed links session
                batch_size max_workers Hb Hw) as Hseq.
  fold c b in Hseq.
  exists cut. split; [by apply batches_cut |]. split; [| split; [| split; [| split; [| split]]]].
  - rewrite Hlen. subst c. rewrite Z2Nat.id; [reflexivity |]. apply Z.div_pos; lia.
  - intros k batch Hk. subst cut. rewrite list_lookup_fmap in Hk.
    destruct (seq 0 c !! k) as [k'|] eqn:Hk'; [| discriminate].
    apply lookup_seq in Hk' as [-> _]. injection Hk as <-.
    split; [reflexivity |]. rewrite length_take. subst b. lia.
  - exact Hcut.
  - by rewrite Hlen.
  - intros Hperm Hret.
    set (out := map (fun k => collected as_completed session (Z.of_nat k * batch_size)
                                (take b (drop (k * b) links))) (seq 0 c)).
    assert (Hout : Forall2 (fun batch results => results ≡ₚ map (record_of session) batch)
                     cut out).
    { subst cut out. apply Forall2_fmap, Forall_Forall2_diag, Forall_forall.
      intros k _. by apply collected_Permutation. }
    exists out. split; [| split; [exact Hout |]].
    + by apply process_books_in_batches_collected.
    + rewrite (concat_Forall2_Permutation _ _ _ Hout), length_map. by rewrite Hcut.
  - intros Hperm link e Hlink Hraise.
    by apply (process_books_in_batches_raises _ _ _ _ _ link e).
Qed.

Lemma process_books_in_batches_count_witness :
  0 < 2 ∧ 0 < 10
  ∧ ∃ records,
      _process_books_in_batches Sample.reversed ["plain"; "clash"; "bare"; "down"; "plain"]
        Sample.session 2 10
      = Ok records
      ∧ length records = 5%nat.
Proof.
  split; [lia |]. split; [lia |].
  destruct (process_books_in_batches_count Sample.reversed
              ["plain"; "clash"; "bare"; "down"; "plain"] Sample.session 2 10)
    as (cut & _ & _ & _ & _ & _ & Hreturn & _); [lia | lia |].
  destruct Hreturn as (out & Hout & _ & Hlength).
  - intros i futures. unfold Sample.reversed. symmetry. apply Permutation_rev.
  - intros link Hlink.
    repeat (apply elem_of_cons in Hlink as [-> | Hlink]);
      [eexists; reflexivity.. | by apply elem_of_nil in Hlink].
  - exists (concat out). by split.
Defined.

(** Three links in one batch, the second with a body the parser rejects:
    its future raises when asked for its result, and the call returns no
    record at all. *)
Lemma process_books_in_batches_raise_counterexample :
  0 < 50
  ∧ get_book_data "garbled" Sample.garbled default_timeout
    = Raise (ParserRejectedMarkup "unknown status keyword 'x' in marked section")
  ∧ _process_books_in_batches Sample.in_order ["plain"; "garbled"; "bare"]
      Sample.garbled 50 10
    = Raise (ParserRejectedMarkup "unknown status keyword 'x' in marked section").
Proof. split; [lia |]. split; reflexivity. Qed.

(** ** The dump *)

Lemma write_entries (book : dict) (f : string) :
  fold_left (fun f '(key, value) => f +:+ (key +:+ ": " +:+ value +:+ newline)) book f
  = f +:+ Text.join "" (map entry_line book).
Proof.
  revert f. induction book as [|[key value] book IH]; intros f.
  - simpl. by rewrite append_empty_r.
  - cbn [fold_left map]. rewrite IH, join_empty_cons. by rewrite append_assoc.
Qed.

Lemma write_book_block (f : string) (i : Z) (book : dict) :
  write_book f (i, book) = f +:+ (block i book +:+ newline).
Proof.
  unfold write_book, block. rewrite write_entries. by rewrite !append_assoc.
Qed.

Lemma write_books_blocks (books : list dict) :
  ∀ (start : Z) (f : string),
    fold_left write_book (enumerate books start) f
    = f +:+ Text.join ""
              (imap (fun k book => block (start + Z.of_nat k) book +:+ newline) books).
Proof.
  induction books as [|book books IH]; intros start f.
  - simpl. by rewrite append_empty_r.
  - cbn [enumerate fold_left]. rewrite write_book_block, IH.
    rewrite imap_cons, join_empty_cons, append_assoc, Z.add_0_r.
    do 3 f_equal. apply imap_ext. intros k b _. simpl. do 2 f_equal. lia.
Qed.

Lemma save_books_insert (books : list dict) (filename : string) (fs : files) :
  _save_books_to_file books filename fs = <[filename := dump books]> fs.
Proof.
  unfold _save_books_to_file, dump. rewrite write_books_blocks.
  change ("" +:+ ?x) with x. do 2 f_equal.
  apply imap_ext. intros k b _. simpl. do 2 f_equal. lia.
Qed.

(** C8. [_save_books_to_file] leaves in the destination the blocks of the
    records in sequence order, numbered from one: a header line, one
    [key: value] line per entry in the order of the record, and a blank line
    after the block.  What the destination held before is gone, and no other
    file changes. *)
Theorem save_books_layout (books : list dict) (filename : string) (fs : files) :
  _save_books_to_file books filename fs !! filename = Some (dump books)
  ∧ (∀ old, _save_books_to_file books filename (<[filename := old]> fs)
            = _save_books_to_file books filename fs)
  ∧ (∀ other, other ≠ filename →
              _save_books_to_file books filename fs !! other = fs !! other)
  ∧ dump [] = ""
  ∧ (∀ book rest,
        dump (book :: rest)
        = ("Книга №1" +:+ newline)
          +:+ Text.join "" (map (fun entry => fst entry +:+ ": " +:+ snd entry +:+ newline) book)
          +:+ newline
          +:+ Text.join ""
                (imap (fun k b => block (Z.of_nat k + 2) b +:+ newline) rest)).
Proof.
  split; [| split; [| split; [| split]]].
  - rewrite save_books_insert. apply lookup_insert_eq.
  - intros old. rewrite !save_books_insert. apply insert_insert_eq.
  - intros other Hne. rewrite save_books_insert. by apply lookup_insert_ne.
  - reflexivity.
  - intros book rest. unfold dump. rewrite imap_cons, join_empty_cons.
    rewrite (imap_ext _ (fun k b => block (Z.of_nat k + 2) b +:+ newline) rest).
    + unfold block at 1. rewrite !append_assoc. reflexivity.
    + intros k b _. simpl. do 2 f_equal. lia.
Qed.

(** ** The pipeline *)

(** C10. Called with [save=False], [scrape_books] leaves every file as it
    was.  The flag does not change what is returned.  Called with
    [save=True] it touches no file but the destination, which then holds the
    dump of the returned records; when the run does not return, it touches no
    file at all. *)
Theorem scrape_books_save_flag (fuel : nat) (session : Session)
    (list_of_set : set_order) (as_completed : completion_order) (fs : files) :
  snd (scrape_books fuel session list_of_set as_completed false fs) = fs
  ∧ fst (scrape_books fuel session list_of_set as_completed true fs)
    = fst (scrape_books fuel session list_of_set as_completed false fs)
  ∧ (∀ name, name ≠ default_filename →
             snd (scrape_books fuel session list_of_set as_completed true fs) !! name
             = fs !! name)
  ∧ (∀ all_books_data,
        fst (scrape_books fuel session list_of_set as_completed true fs)
        = Ok all_books_data →
        snd (scrape_books fuel session list_of_set as_completed true fs)
        = <[default_filename := dump all_books_data]> fs)
  ∧ ((∀ all_books_data,
         fst (scrape_books fuel session list_of_set as_completed true fs)
         ≠ Ok all_books_data) →
     snd (scrape_books fuel session list_of_set as_completed true fs) = fs).
Proof.
  pose proof (fun books => save_books_insert books default_filename fs) as Hfile.
  unfold scrape_books.
  destruct (_collect_all_books_links fuel session 1 ≫= _) as [data|e|];
    simpl; repeat split; try reflexivity.
  - intros name Hne. rewrite Hfile. by apply lookup_insert_ne.
  - intros all_books_data [= <-]. apply Hfile.
  - intros Hnever. exfalso. by apply (Hnever data).
  - intros ? [=].
  - intros ? [=].
Qed.

(** On the sample catalogue the run returns: three links, none of which is
    served, hence three empty records, dumped as three bare headers. *)
Lemma scrape_books_sample :
  scrape_books 3 Sample.session elements Sample.reversed true ∅
  = (Ok [[]; []; []], {[ default_filename := dump [[]; []; []] ]}).
Proof. by vm_compute. Qed.

(** * Further properties of the scraper *)

(** ** Text of the fields *)

Lemma get_stock_amount_cons (c : ascii) (r : string) :
  _get_stock_amount (String c r)
  = if Text.is_digit c then String c (Text.take_digits r) else _get_stock_amount r.
Proof. unfold _get_stock_amount. simpl. by destruct (Text.is_digit c). Qed.

Lemma take_digits_split (s : string) :
  ∃ after,
    s = Text.take_digits s +:+ after
    ∧ string_forall Text.is_digit (Text.take_digits s) = true
    ∧ match first_char after with
      | Some c => Text.is_digit c = false
      | None => True
      end.
Proof.
  induction s as [|c r (after & Hr & Hd & Ha)].
  - by exists "".
  - cbn [Text.take_digits]. destruct (Text.is_digit c) eqn:E.
    + exists after. rewrite append_cons, <- Hr. cbn [string_forall]. by rewrite E, Hd.
    + exists (String c r). repeat split. simpl. exact E.
Qed.

Lemma take_digits_all (s : string) :
  string_forall Text.is_digit s = true → Text.take_digits s = s.
Proof.
  induction s as [|c r IH]; [reflexivity |].
  cbn [string_forall Text.take_digits]. intros [Hc Hr]%andb_true_iff.
  by rewrite Hc, IH.
Qed.


(** X1. On an ASCII text, [_get_stock_amount] returns the first run of
    digits, taken as far as it goes: nothing before it is a digit, it is made
    of digits, and what follows does not start with one.  It returns the
    empty string only when the text has no digit at all, and applying it to
    its own result changes nothing. *)
Theorem get_stock_amount_first_run (stock_info : string) :
  is_ascii stock_info = true →
  (∃ before after,
      stock_info = before +:+ _get_stock_amount stock_info +:+ after
      ∧ string_forall (fun c => negb (Text.is_digit c)) before = true
      ∧ string_forall Text.is_digit (_get_stock_amount stock_info) = true
      ∧ match first_char after with
        | Some c => Text.is_digit c = false
        | None => True
        end
      ∧ (_get_stock_amount stock_info = "" → after = ""))
  ∧ (_get_stock_amount stock_info = ""
     ↔ string_forall (fun c => negb (Text.is_digit c)) stock_info = true)
  ∧ _get_stock_amount (_get_stock_amount stock_info) = _get_stock_amount stock_info.
Proof.
  intros _.
  assert (Hrun : ∃ before after,
      stock_info = before +:+ _get_stock_amount stock_info +:+ after
      ∧ string_forall (fun c => negb (Text.is_digit c)) before = true
      ∧ string_forall Text.is_digit (_get_stock_amount stock_info) = true
      ∧ match first_char after with
        | Some c => Text.is_digit c = false
        | None => True
        end
      ∧ (_get_stock_amount stock_info = "" → after = "")).
  { induction stock_info as [|c r (before & after & Hr & Hb & Hd & Ha & He)].
    - by exists "", "".
    - rewrite get_stock_amount_cons. destruct (Text.is_digit c) eqn:E.
      + destruct (take_digits_split r) as (rest & Hrest & Hdigits & Hfirst).
        exists "", rest. change ("" +:+ ?x) with x. rewrite append_cons, <- Hrest.
        cbn [string_forall]. rewrite E, Hdigits. repeat split; [exact Hfirst |].
        discriminate.
      + exists (String c before), after. rewrite append_cons, <- Hr.
        cbn [string_forall]. rewrite E, Hb. by repeat split. }
  split; [exact Hrun |]. split.
  - clear Hrun. induction stock_info as [|c r IH]; [done |].
    rewrite get_stock_amount_cons. cbn [string_forall].
    destruct (Text.is_digit c); simpl; [split; discriminate | exact IH].
  - destruct Hrun as (_ & _ & _ & _ & Hd & _).
    destruct (_get_stock_amount stock_info) as [|c r] eqn:E; [reflexivity |].
    rewrite get_stock_amount_cons. cbn [string_forall] in Hd.
    apply andb_true_iff in Hd as [-> Hr]. by rewrite take_digits_all.
Qed.

Lemma get_stock_amount_first_run_witness :
  is_ascii " In stock (19 available) " = true
  ∧ _get_stock_amount (_get_stock_amount " In stock (19 available) ")
    = _get_stock_amount " In stock (19 available) ".
Proof.
  split; [reflexivity |].
  apply (get_stock_amount_first_run " In stock (19 available) " eq_refl).
Defined.

Lemma rate_of_classes_values (classes : list string) :
  rate_of_classes classes ∈ [""; "0"; "1"; "2"; "3"; "4"; "5"].
Proof.
  destruct (rate_of_classes_first classes)
    as [(rate & (before & cls & after & _ & _ & Hcls) & ->) | [_ ->]];
    [| apply list_elem_of_here].
  apply rating_map_entries in Hcls.
  rewrite !elem_of_cons in Hcls. rewrite !elem_of_cons.
  destruct Hcls as [H|[H|[H|[H|[H|[H|H]]]]]];
    try (injection H as _ ->; tauto).
  by apply elem_of_nil in H.
Qed.

(** X2. Whatever the element, for a search by tag name and attribute
    filters [_get_rate] returns the empty string or one of the digits "0" to
    "5"; the only exception it can raise is the [KeyError] of a rating
    element without [class]. *)
Theorem get_rate_values (html_elem : node) (tag : string) (kwargs : keywords) :
  attribute_search tag kwargs →
  match _get_rate html_elem tag kwargs with
  | Ok rate => rate ∈ [""; "0"; "1"; "2"; "3"; "4"; "5"]
  | Raise e =>
      e = KeyError "class"
      ∧ ∃ rate_tag,
          find (SoupStrainer (Some tag) kwargs) html_elem = Some rate_tag
          ∧ tag_class rate_tag = None
  | OutOfFuel => False
  end.
Proof.
  intros _. unfold _get_rate.
  destruct (find (SoupStrainer (Some tag) kwargs) html_elem) as [rate_tag|];
    [| apply list_elem_of_here].
  destruct rate_tag as [s | name [classes|] attrs cs]; simpl.
  - split; [reflexivity |]. by eexists.
  - apply rate_of_classes_values.
  - split; [reflexivity |]. by eexists.
Qed.

Lemma get_rate_values_witness :
  attribute_search "p" (Keywords None [("id", MStr "stars")])
  ∧ match _get_rate Sample.main_info "p" (Keywords None [("id", MStr "stars")]) with
    | Ok rate => rate ∈ [""; "0"; "1"; "2"; "3"; "4"; "5"]
    | Raise e =>
        e = KeyError "class"
        ∧ ∃ rate_tag,
            find (SoupStrainer (Some "p") (Keywords None [("id", MStr "stars")]))
              Sample.main_info
            = Some rate_tag
            ∧ tag_class rate_tag = None
    | OutOfFuel => False
    end.
Proof.
  assert (Hsearch : attribute_search "p" (Keywords None [("id", MStr "stars")])).
  { split; [discriminate |]. split.
    - apply (bool_decide_unpack _). by vm_compute.
    - apply (bool_decide_unpack _). by vm_compute. }
  split; [exact Hsearch |].
  apply (get_rate_values Sample.main_info "p" (Keywords None [("id", MStr "stars")]) Hsearch).
Defined.

(** ** Stripping *)













(** The no-break space is white space to [str.strip], at either end, and so
    to the text of a heading. *)
Lemma strip_no_break_space :
  Text.strip (Sample.nbsp +:+ " Sonnets" +:+ Sample.nbsp) = "Sonnets"
  ∧ get_text true (Sample.text_tag "h1" (Sample.nbsp +:+ " Sonnets" +:+ Sample.nbsp))
    = "Sonnets".
Proof. split; reflexivity. Qed.






(** ** The description *)











(** ** The merge of the fixed and the variable fields *)

Lemma get_update_Some (other d : dict) (k v : string) :
  NoDup (Dict.keys other) →
  Dict.get other k = Some v →
  Dict.get (Dict.update d other) k = Some v.
Proof.
  unfold Dict.update. revert d.
  induction other as [|[k' v'] other IH]; intros d Hnd; [discriminate |].
  simpl in Hnd. apply NoDup_cons in Hnd as [Hk' Hnd]. simpl.
  destruct (String.eqb_spec k' k) as [->|Hne].
  - intros [= ->]. apply DictFacts.get_None_keys in Hk'.
    pose proof (DictFacts.get_update_None other (Dict.set d k v) k Hk') as Hkeep.
    unfold Dict.update in Hkeep. rewrite Hkeep. apply DictFacts.get_set_eq.
  - by apply IH.
Qed.

(** X5. In the record of a page with a main-info block and an availability
    text in ASCII, every key of the additional-info table carries the table's
    value, also when it is one of the five fixed keys; every other key
    carries the fixed field, and keys of neither kind are absent. *)
Theorem get_book_data_lookup (book_url : string) (session : Session) (timeout : Z)
    (soup main_info : node) :
  fetch_gives (session book_url (Some timeout)) soup →
  find product_main soup = Some main_info →
  is_ascii (_get_attr_text main_info "p" (class_is (MList ["instock"; "availability"])))
  = true →
  ∃ record rate,
    get_book_data book_url session timeout = Ok record
    ∧ _get_rate main_info "p" (class_is (MStr "star-rating")) = Ok rate
    ∧ ∀ key,
        Dict.get record key
        = match Dict.get (_collect_additional_info soup) key with
          | Some value => Some value
          | None =>
              Dict.get
                [("Book name", _get_attr_text main_info "h1" no_keywords);
                 ("Book price",
                  _get_attr_text main_info "p" (class_is (MStr "price_color")));
                 ("In stock amount",
                  _get_stock_amount
                    (_get_attr_text main_info "p"
                       (class_is (MList ["instock"; "availability"]))));
                 ("Rate", rate);
                 ("Book description", _collect_description soup)]
                key
          end.
Proof.
  intros Hfetch Hmain _. apply get_book_response_Some in Hfetch.
  destruct (get_rate_returns main_info "p" (class_is (MStr "star-rating")))
    as [rate Hrate]; [simpl; discriminate |].
  eexists _, rate. split; [| split; [exact Hrate |]].
  - unfold get_book_data. rewrite Hfetch. cbn [mbind outcome_bind].
    rewrite Hmain, Hrate. reflexivity.
  - intros key. destruct (Dict.get (_collect_additional_info soup) key) as [value|] eqn:E.
    + apply get_update_Some; [apply additional_info_NoDup | exact E].
    + by apply DictFacts.get_update_None.
Qed.

Lemma get_book_data_lookup_witness :
  fetch_gives (Sample.session "clash" (Some 10)) Sample.clash_page
  ∧ find product_main Sample.clash_page = Some Sample.main_info
  ∧ is_ascii
      (_get_attr_text Sample.main_info "p" (class_is (MList ["instock"; "availability"])))
    = true
  ∧ ∃ record,
      get_book_data "clash" Sample.session 10 = Ok record
      ∧ Dict.get record "Book name" = Some "Other"
      ∧ Dict.get record "Rate" = Some "3".
Proof.
  assert (Hfetch : fetch_gives (Sample.session "clash" (Some 10)) Sample.clash_page).
  { exists 200. split; [reflexivity | lia]. }
  split; [exact Hfetch |]. split; [reflexivity |]. split; [reflexivity |].
  destruct (get_book_data_lookup "clash" Sample.session 10 Sample.clash_page
              Sample.main_info Hfetch eq_refl eq_refl)
    as (record & rate & Hrecord & Hrate & Hget).
  exists record. split; [exact Hrecord |]. split.
  - rewrite Hget. reflexivity.
  - rewrite Hget. injection Hrate as <-. reflexivity.
Defined.

(** ** The keys of the additional-info mapping *)

Lemma elem_of_first_occurrences (l : list string) (x : string) :
  x ∈ first_occurrences l ↔ x ∈ l.
Proof.
  induction l as [|y l IH]; [reflexivity |].
  cbn [first_occurrences]. rewrite !elem_of_cons, list_elem_of_filter, IH.
  destruct (decide (x = y)); [tauto |]. tauto.
Qed.

Lemma first_occurrences_snoc (l : list string) (x : string) :
  first_occurrences (l ++ [x])
  = first_occurrences l ++ (if decide (x ∈ l) then [] else [x]).
Proof.
  induction l as [|y l IH]; [reflexivity |].
  cbn [app first_occurrences]. rewrite IH, filter_app, app_comm_cons. f_equal.
  destruct (decide (x ∈ y :: l)) as [Hin'|Hout'];
    destruct (decide (x ∈ l)) as [Hin|Hout]; try reflexivity.
  - apply elem_of_cons in Hin' as [->|?]; [| contradiction].
    by rewrite filter_cons_False by (intros H; by apply H).
  - exfalso. apply Hout'. by apply list_elem_of_further.
  - apply not_elem_of_cons in Hout' as [Hne _]. by rewrite filter_cons_True.
Qed.

Lemma length_set_le (d : dict) (k v : string) :
  (length (Dict.set d k v) ≤ S (length d))%nat.
Proof.
  induction d as [|[k' v'] d IH]; simpl; [lia |].
  destruct (String.eqb k' k); simpl; lia.
Qed.

Lemma additional_rows_first_occurrences (rows : list node) :
  Dict.keys (fold_left additional_info_row rows [])
  = first_occurrences (filter (fun key => key ≠ "") (map row_key rows)).
Proof.
  induction rows as [|r rows IH] using rev_ind; [reflexivity |].
  rewrite fold_left_app, map_app, filter_app. simpl. unfold additional_info_row at 1.
  destruct (String.eqb_spec (row_key r) "") as [Hempty|Hfull].
  - rewrite filter_cons_False by (intros H; by apply H).
    by rewrite filter_nil, app_nil_r.
  - rewrite filter_cons_True, filter_nil by assumption.
    rewrite first_occurrences_snoc, DictFacts.keys_set, <- IH.
    destruct (Dict.contains (fold_left additional_info_row rows []) (row_key r)) eqn:E.
    + apply DictFacts.contains_true in E. rewrite IH, elem_of_first_occurrences in E.
      by rewrite decide_True, app_nil_r.
    + apply DictFacts.contains_false in E. rewrite IH, elem_of_first_occurrences in E.
      by rewrite decide_False.
Qed.

Lemma additional_rows_length (rows : list node) :
  (length (fold_left additional_info_row rows []) ≤ length rows)%nat.
Proof.
  induction rows as [|r rows IH] using rev_ind; [reflexivity |].
  rewrite fold_left_app, length_app. simpl. unfold additional_info_row at 1.
  destruct (String.eqb (row_key r) ""); [lia |].
  pose proof (length_set_le (fold_left additional_info_row rows [])
                (row_key r) (row_value r)). lia.
Qed.

(** X6. The keys of the additional-info mapping are the non-empty header
    texts of the rows of the first table, each once, in the order in which
    they first occur; so the empty string is never a key, and the mapping has
    at most one entry per row.  A page without such a table gives the empty
    mapping. *)
Theorem additional_info_keys_order (soup : node) :
  NoDup (Dict.keys (_collect_additional_info soup))
  ∧ ("" ∉ Dict.keys (_collect_additional_info soup))
  ∧ (find additional_info_table soup = None → _collect_additional_info soup = [])
  ∧ (∀ table,
        find additional_info_table soup = Some table →
        Dict.keys (_collect_additional_info soup)
        = first_occurrences
            (filter (fun key => key ≠ "")
                    (map row_key (find_all (by_tag "tr") table)))
        ∧ (length (_collect_additional_info soup)
           ≤ length (find_all (by_tag "tr") table))%nat).
Proof.
  split; [apply additional_info_NoDup |].
  unfold _collect_additional_info.
  destruct (find additional_info_table soup) as [table|].
  - split; [| split; [discriminate |]].
    + intros Hin. by apply additional_rows_keys in Hin as [Hne _].
    + intros table' [= <-].
      split; [apply additional_rows_first_occurrences | apply additional_rows_length].
  - split; [apply not_elem_of_nil |]. split; [reflexivity | discriminate].
Qed.

(** ** The links of a page, counted *)

Lemma remove_dups_fmap_inj {A B} `{EqDecision A, EqDecision B} (f : A → B)
    `{!Inj (=) (=) f} (l : list A) :
  remove_dups (f <$> l) = f <$> remove_dups l.
Proof.
  induction l as [|x l IH]; [reflexivity |].
  cbn [fmap list_fmap remove_dups]. fold (f <$> l). rewrite IH.
  destruct (decide_rel elem_of x l) as [Hin|Hout];
    destruct (decide_rel elem_of (f x) (f <$> l)) as [Hin'|Hout'];
    try reflexivity; exfalso.
  - apply Hout'. by apply list_elem_of_fmap_2.
  - apply list_elem_of_fmap in Hin' as (y & Hxy & Hy).
    apply (inj f) in Hxy as ->. contradiction.
Qed.

Lemma page_links_list_hrefs (soup : node) :
  page_links_list soup = String.append base_url <$> page_hrefs soup.
Proof.
  unfold page_links_list, page_hrefs.
  induction (List.filter is_heading (descendants soup)) as [|h3 l IH]; [reflexivity |].
  cbn [flat_map]. rewrite fmap_app, <- IH. f_equal.
  by rewrite list_fmap_omap.
Qed.

(** X7. A listing page yields as many detail URLs as it has distinct [href]
    values on the anchors of its headings, and the URL of an [href] is
    collected exactly when that [href] occurs there. *)
Theorem collect_links_from_page_size (soup : node) :
  ∃ links,
    _collect_links_from_page soup = Ok links
    ∧ size links = length (remove_dups (page_hrefs soup))
    ∧ (∀ href, (base_url +:+ href) ∈ links ↔ href ∈ page_hrefs soup).
Proof.
  exists (list_to_set (page_links_list soup)).
  split; [apply collect_links_from_page_list |]. split.
  - rewrite size_list_to_set_remove_dups, page_links_list_hrefs.
    rewrite (remove_dups_fmap_inj (String.append base_url)). by rewrite length_fmap.
  - intros href. rewrite elem_of_list_to_set, page_links_list_hrefs. split.
    + intros (h & Heq & Hin)%list_elem_of_fmap.
      by apply (inj (String.append base_url)) in Heq as ->.
    + intros Hin. by apply list_elem_of_fmap_2.
Qed.

(** ** The collection, page after page *)

Lemma collect_loop_accumulates (session : Session) (fuel : nat) :
  ∀ (page_num : Z) (links : gset string),
    collect_loop fuel session page_num links
    = (fun found => links ∪ found) <$> collect_loop fuel session page_num ∅.
Proof.
  induction fuel as [|fuel IH]; intros page_num links; [reflexivity |].
  destruct (fetch_cases (session (page_url page_num) None))
    as [Hfail | [[page Hpage] | [e Hraise]]].
  - cbn [collect_loop]. rewrite !loop_turn_break by assumption.
    simpl. by rewrite union_empty_r_L.
  - cbn [collect_loop].
    rewrite !(loop_turn_continue session page_num _ page Hpage).
    cbn [mbind outcome_bind].
    rewrite (IH (page_num + 1) (links ∪ _)), (IH (page_num + 1) (∅ ∪ _)).
    destruct (collect_loop fuel session (page_num + 1) ∅) as [found| |]; try reflexivity.
    simpl. by rewrite union_empty_l_L, (assoc_L (∪)).
  - cbn [collect_loop]. by rewrite !(loop_turn_raise session page_num _ e Hraise).
Qed.

(** X8. Collecting from page [n], when that page is served, gives the links
    of page [n] together with what collecting from page [n + 1] gives; and
    the loop never drops a link it holds. *)
Theorem collect_all_links_next_page (session : Session) (fuel : nat)
    (start_page_num : Z) :
  (∀ page,
      fetch_gives (session (page_url start_page_num) None) page →
      _collect_all_books_links (S fuel) session start_page_num
      = (fun found => list_to_set (page_links_list page) ∪ found)
          <$> _collect_all_books_links fuel session (start_page_num + 1))
  ∧ (fetch_fails (session (page_url start_page_num) None) →
     _collect_all_books_links (S fuel) session start_page_num = Ok ∅)
  ∧ (∀ links result,
        collect_loop fuel session start_page_num links = Ok result →
        links ⊆ result).
Proof.
  unfold _collect_all_books_links. split; [| split].
  - intros page Hpage. cbn [collect_loop].
    rewrite (loop_turn_continue session start_page_num ∅ page Hpage).
    cbn [mbind outcome_bind]. rewrite union_empty_l_L.
    apply collect_loop_accumulates.
  - intros Hfail. cbn [collect_loop]. by rewrite loop_turn_break.
  - intros links result. rewrite collect_loop_accumulates.
    destruct (collect_loop fuel session start_page_num ∅) as [found| |];
      simpl; intros [= <-]. apply union_subseteq_l.
Qed.

Lemma loop_turn_same_response (session1 session2 : Session) (page_num : Z)
    (links : gset string) :
  session1 (page_url page_num) None = session2 (page_url page_num) None →
  loop_turn session1 page_num links = loop_turn session2 page_num links.
Proof. intros H. unfold loop_turn, _process_page. by rewrite H. Qed.

Lemma collect_loop_first_failure (session1 session2 : Session) (fuel : nat) :
  ∀ (P : nat) (page_num : Z) (links : gset string),
    (∀ k : nat, (k ≤ P)%nat →
                session1 (page_url (page_num + Z.of_nat k)) None
                = session2 (page_url (page_num + Z.of_nat k)) None) →
    fetch_fails (session1 (page_url (page_num + Z.of_nat P)) None) →
    collect_loop fuel session1 page_num links = collect_loop fuel session2 page_num links.
Proof.
  induction fuel as [|fuel IH]; intros P page_num links Hsame Hfail; [reflexivity |].
  cbn [collect_loop].
  rewrite <- (loop_turn_same_response session1 session2 page_num links)
    by (specialize (Hsame 0%nat ltac:(lia)); by rewrite Z.add_0_r in Hsame).
  destruct (fetch_cases (session1 (page_url page_num) None))
    as [Hnow | [[page Hpage] | [e Hraise]]].
  - by rewrite loop_turn_break.
  - rewrite (loop_turn_continue session1 page_num links page Hpage).
    cbn [mbind outcome_bind].
    destruct P as [|P].
    { exfalso. rewrite Z.add_0_r in Hfail. by apply (fetch_fails_not_gives _ page Hfail). }
    apply (IH P).
    + intros k Hk. specialize (Hsame (S k) ltac:(lia)).
      by replace (page_num + 1 + Z.of_nat k) with (page_num + Z.of_nat (S k)) by lia.
    + by replace (page_num + 1 + Z.of_nat P) with (page_num + Z.of_nat (S P)) by lia.
  - by rewrite (loop_turn_raise session1 page_num links e Hraise).
Qed.

(** X9. The collection reads no page beyond the first whose fetch fails,
    whatever the failure: two transports that answer alike up to and
    including that page give the same result, also when one of them would
    serve later pages. *)
Theorem collect_all_links_first_failure (session1 session2 : Session)
    (start_page_num : Z) (P fuel : nat) :
  (∀ k : nat, (k ≤ P)%nat →
              session1 (page_url (start_page_num + Z.of_nat k)) None
              = session2 (page_url (start_page_num + Z.of_nat k)) None) →
  fetch_fails (session1 (page_url (start_page_num + Z.of_nat P)) None) →
  _collect_all_books_links fuel session1 start_page_num
  = _collect_all_books_links fuel session2 start_page_num.
Proof. intros Hsame Hfail. by apply (collect_loop_first_failure _ _ fuel P). Qed.

Lemma collect_all_links_first_failure_witness :
  fetch_fails (Sample.session (page_url (1 + Z.of_nat 2)) None)
  ∧ Sample.beyond (page_url 4) None = Response 200 Sample.page_four
  ∧ _collect_all_books_links 9 Sample.session 1
    = _collect_all_books_links 9 Sample.beyond 1.
Proof.
  assert (Hfail : fetch_fails (Sample.session (page_url (1 + Z.of_nat 2)) None)).
  { right. exists 404, (BeautifulSoup []). split; [reflexivity | lia]. }
  split; [exact Hfail |]. split; [reflexivity |].
  apply (collect_all_links_first_failure Sample.session Sample.beyond 1 2 9);
    [| exact Hfail].
  intros [|[|[|k]]] Hk; [reflexivity | reflexivity | reflexivity | lia].
Defined.

(** ** The batches, at the edges *)

Lemma process_batches_fold_Raise (as_completed : completion_order) (session : Session)
    (links : list string) (batch_size max_workers : Z) (starts : list Z) (e : exn) :
  fold_left
    (fun (acc : outcome (list dict)) i =>
       all_books_data ← acc;
       let batch := Py.slice links i (i + batch_size) in
       collected ← process_batch as_completed session max_workers i batch;
       Ok (all_books_data ++ collected))
    starts (Raise e)
  = Raise e.
Proof. induction starts as [|i starts IH]; [reflexivity | exact IH]. Qed.

Lemma process_batch_no_workers (as_completed : completion_order) (session : Session)
    (max_workers i : Z) (batch : list string) :
  max_workers ≤ 0 →
  process_batch as_completed session max_workers i batch
  = Raise (ValueError "max_workers must be greater than 0").
Proof.
  intros Hw. unfold process_batch.
  by destruct (Z.leb_spec max_workers 0) as [_|]; [| lia].
Qed.

(** X10. A batch size of zero makes [_process_books_in_batches] raise the
    [ValueError] of [range], also on an empty list; a negative batch size
    makes it return the empty list without processing any link. *)
Theorem process_books_in_batches_bad_size (as_completed : completion_order)
    (links : list string) (session : Session) (batch_size max_workers : Z) :
  (batch_size = 0 →
   _process_books_in_batches as_completed links session batch_size max_workers
   = Raise (ValueError "range() arg 3 must not be zero"))
  ∧ (batch_size < 0 →
     _process_books_in_batches as_completed links session batch_size max_workers
     = Ok []).
Proof.
  unfold _process_books_in_batches, Py.range. split.
  - by intros ->.
  - intros Hneg. destruct (Z.eqb_spec batch_size 0) as [|_]; [lia |].
    destruct (Z.ltb_spec 0 batch_size) as [|_]; [lia |].
    by replace (Z.to_nat (0 - Z.of_nat (length links))) with 0%nat by lia.
Qed.

(** X11. With a pool size that is not positive, [_process_books_in_batches]
    raises the [ValueError] of the pool as soon as there is a link to
    process, and returns the empty list when there is none. *)
Theorem process_books_in_batches_no_workers (as_completed : completion_order)
    (links : list string) (session : Session) (batch_size max_workers : Z) :
  0 < batch_size →
  max_workers ≤ 0 →
  _process_books_in_batches as_completed links session batch_size max_workers
  = match links with
    | [] => Ok []
    | _ :: _ => Raise (ValueError "max_workers must be greater than 0")
    end.
Proof.
  intros Hb Hw. unfold _process_books_in_batches.
  rewrite range_batch_starts by assumption. cbn [mbind outcome_bind].
  destruct links as [|link links].
  - by replace (Z.to_nat ((Z.of_nat (length (@nil string)) + batch_size - 1) / batch_size))
      with 0%nat by (simpl; rewrite Z.div_small; lia).
  - assert (1 ≤ (Z.of_nat (length (link :: links)) + batch_size - 1) / batch_size)
      by (apply Z.div_le_lower_bound; simpl length; lia).
    destruct (Z.to_nat ((Z.of_nat (length (link :: links)) + batch_size - 1) / batch_size))
      as [|c] eqn:Hc; [lia |].
    rewrite <- cons_seq. cbn [map fold_left mbind outcome_bind].
    rewrite process_batch_no_workers by assumption.
    apply process_batches_fold_Raise.
Qed.

Lemma process_books_in_batches_no_workers_witness :
  0 < 50 ∧ 0 ≤ 0
  ∧ _process_books_in_batches Sample.reversed ["plain"] Sample.session 50 0
    = Raise (ValueError "max_workers must be greater than 0").
Proof.
  split; [lia |]. split; [lia |].
  apply (process_books_in_batches_no_workers Sample.reversed ["plain"]
           Sample.session 50 0); lia.
Defined.

(** ** The batches, in order *)

Lemma Permutation_short {A} (l l' : list A) :
  l' ≡ₚ l → (length l ≤ 1)%nat → l' = l.
Proof.
  intros Hperm Hlen. destruct l as [|x [|y l]]; [| | simpl in Hlen; lia].
  - by apply Permutation_nil_r in Hperm.
  - by apply Permutation_singleton_r in Hperm.
Qed.

(** X12. When every batch holds one link, or when the futures complete in
    the order of submission, the call is the extraction of the links one by
    one in the order of the list: it returns the records of the links in
    that order, or raises what the first extraction that raises raises. *)
Theorem process_books_in_batches_in_order (as_completed : completion_order)
    (links : list string) (session : Session) (batch_size max_workers : Z) :
  0 < batch_size →
  0 < max_workers →
  (∀ i futures, as_completed i futures ≡ₚ futures) →
  batch_size = 1 ∨ (∀ i futures, as_completed i futures = futures) →
  _process_books_in_batches as_completed links session batch_size max_workers
  = mapM (fun link => get_book_data link session default_timeout) links.
Proof.
  intros Hb Hw Hperm Horder.
  rewrite process_books_in_batches_sequence by assumption.
  rewrite (mapM_ext _
             (fun k =>
                mapM (fun link => get_book_data link session default_timeout)
                  (take (Z.to_nat batch_size) (drop (k * Z.to_nat batch_size) links)))).
  - rewrite mapM_concat. by rewrite concat_chunks by (by apply chunks_cover).
  - intros k.
    replace (as_completed (Z.of_nat k * batch_size)
               (futures_of session
                  (take (Z.to_nat batch_size) (drop (k * Z.to_nat batch_size) links))))
      with (futures_of session
              (take (Z.to_nat batch_size) (drop (k * Z.to_nat batch_size) links))).
    + unfold results, futures_of. by rewrite mapM_fmap.
    + symmetry. destruct Horder as [-> | Hid]; [| apply Hid].
      apply Permutation_short; [apply Hperm |].
      unfold futures_of. rewrite length_map, length_take. lia.
Qed.

Lemma process_books_in_batches_in_order_witness :
  0 < 1 ∧ 0 < 10
  ∧ _process_books_in_batches Sample.reversed ["plain"; "garbled"; "bare"; "clash"]
      Sample.garbled 1 10
    = mapM (fun link => get_book_data link Sample.garbled default_timeout)
        ["plain"; "garbled"; "bare"; "clash"].
Proof.
  split; [lia |]. split; [lia |].
  apply (process_books_in_batches_in_order Sample.reversed
           ["plain"; "garbled"; "bare"; "clash"] Sample.garbled 1 10);
    [lia | lia | | by left].
  intros i futures. unfold Sample.reversed. symmetry. apply Permutation_rev.
Defined.

(** ** The dump, block after block *)

Lemma join_empty_app (l1 l2 : list string) :
  Text.join "" (l1 ++ l2) = Text.join "" l1 +:+ Text.join "" l2.
Proof.
  induction l1 as [|x l1 IH]; [reflexivity |].
  rewrite <- app_comm_cons, !join_empty_cons, IH. by rewrite append_assoc.
Qed.

(** X13. Saving a longer list extends the file of the shorter one: the file
    for [books ++ more] is the file for [books] followed by the blocks of
    [more], numbered on from the number of [books].  Saving the same list
    twice is the same as saving it once. *)
Theorem save_books_append (books more : list dict) (filename : string) (fs : files) :
  _save_books_to_file (books ++ more) filename fs !! filename
  = Some (dump books
          +:+ Text.join ""
                (imap (fun k book =>
                         block (Z.of_nat (length books + k) + 1) book +:+ newline)
                      more))
  ∧ _save_books_to_file books filename (_save_books_to_file books filename fs)
    = _save_books_to_file books filename fs.
Proof.
  split.
  - rewrite save_books_insert. etransitivity; [apply lookup_insert_eq |].
    unfold dump. by rewrite imap_app, join_empty_app.
  - rewrite !save_books_insert. apply insert_insert_eq.
Qed.

(** X14. The dump does not tell where a key ends: a record with the key
    [key: value] and a record with the value [value: rest] under [key] leave
    the same file, wherever the record stands and whatever else it holds. *)
Theorem save_books_ambiguous (key value rest : string) (entries1 entries2 : dict)
    (books1 books2 : list dict) (filename : string) (fs : files) :
  _save_books_to_file
    (books1 ++ (entries1 ++ (key +:+ ": " +:+ value, rest) :: entries2) :: books2)
    filename fs
  = _save_books_to_file
      (books1 ++ (entries1 ++ (key, value +:+ ": " +:+ rest) :: entries2) :: books2)
      filename fs.
Proof.
  rewrite !save_books_insert. f_equal. unfold dump.
  rewrite !imap_app, !imap_cons. do 3 f_equal.
  unfold block. rewrite !map_app. cbn [map]. do 4 f_equal.
  unfold entry_line. simpl. by rewrite !append_assoc.
Qed.

(** ** The whole run *)

Lemma concat_map_Permutation {A B} (f g : A → list B) (l : list A) :
  (∀ x, f x ≡ₚ g x) → concat (map f l) ≡ₚ concat (map g l).
Proof.
  intros Hfg. induction l as [|x l IH]; [reflexivity |].
  simpl. by apply Permutation_app.
Qed.

Lemma process_books_in_batches_Permutation (as_completed : completion_order)
    (links : list string) (session : Session) (batch_size max_workers : Z) :
  0 < batch_size →
  0 < max_workers →
  (∀ i futures, as_completed i futures ≡ₚ futures) →
  (∀ link, link ∈ links →
           ∃ record, get_book_data link session default_timeout = Ok record) →
  ∃ all_books_data,
    _process_books_in_batches as_completed links session batch_size max_workers
    = Ok all_books_data
    ∧ all_books_data ≡ₚ map (record_of session) links.
Proof.
  intros Hb Hw Hperm Hret. eexists.
  split; [by apply process_books_in_batches_collected |].
  rewrite <- (concat_chunks (Z.to_nat batch_size)
                (Z.to_nat ((Z.of_nat (length links) + batch_size - 1) / batch_size))
                links (chunks_cover links batch_size Hb)) at 2.
  rewrite concat_map, map_map. apply concat_map_Permutation.
  intros k. by apply collected_Permutation.
Qed.

(** The sample transport raises nothing, so every extraction returns. *)
Lemma sample_session_returns (link : string) :
  ∃ record, get_book_data link Sample.session default_timeout = Ok record.
Proof.
  destruct (fetch_cases (Sample.session link (Some default_timeout)))
    as [Hfail | [[soup Hgives] | [e Hraise]]].
  - exists []. by apply get_book_data_fails.
  - destruct (get_book_data_gives _ _ _ _ Hgives) as (record & Hrecord & _). by exists record.
  - exfalso. unfold Sample.session in Hraise.
    repeat match type of Hraise with
           | context [if ?b then _ else _] => destruct b
           end;
      destruct Hraise as [Hraise | (status_code & Hraise & _)]; discriminate.
Qed.

(** X15. When the futures of a batch complete in some order, and with the
    write of the file taken to succeed: when the collection returns a set of
    links and the extraction of each of them returns, the run returns the
    records of those links, in some order of the list made from the set; if
    that list holds each link once, there are as many records as links.
    When the extraction of one of the links raises, the run raises and no
    file is touched.  When the collection does not return, neither does the
    run, and when the collection raises, so does the run; no file is touched
    then either. *)
Theorem scrape_books_returns (fuel : nat) (session : Session)
    (list_of_set : set_order) (as_completed : completion_order) (save : bool)
    (fs : files) :
  (∀ i futures, as_completed i futures ≡ₚ futures) →
  (∀ links,
      _collect_all_books_links fuel session 1 = Ok links →
      (∀ link, link ∈ list_of_set links →
               ∃ record, get_book_data link session default_timeout = Ok record) →
      ∃ all_books_data,
        fst (scrape_books fuel session list_of_set as_completed save fs)
        = Ok all_books_data
        ∧ all_books_data ≡ₚ map (record_of session) (list_of_set links)
        ∧ (list_of_set links ≡ₚ elements links →
           length all_books_data = size links))
  ∧ (∀ links link e,
        _collect_all_books_links fuel session 1 = Ok links →
        link ∈ list_of_set links →
        get_book_data link session default_timeout = Raise e →
        ∃ e', scrape_books fuel session list_of_set as_completed save fs = (Raise e', fs))
  ∧ (_collect_all_books_links fuel session 1 = OutOfFuel →
     scrape_books fuel session list_of_set as_completed save fs = (OutOfFuel, fs))
  ∧ (∀ e, _collect_all_books_links fuel session 1 = Raise e →
          scrape_books fuel session list_of_set as_completed save fs = (Raise e, fs)).
Proof.
  intros Hperm. unfold scrape_books. split; [| split; [| split]].
  - intros links -> Hret. cbn [mbind outcome_bind].
    destruct (process_books_in_batches_Permutation as_completed (list_of_set links)
                session default_batch_size default_max_workers)
      as (data & -> & Hdata); [reflexivity | reflexivity | assumption | assumption |].
    exists data. split; [reflexivity |]. split; [exact Hdata |].
    intros Hlist. by rewrite Hdata, length_map, Hlist.
  - intros links link e -> Hlink Hraise. cbn [mbind outcome_bind].
    destruct (process_books_in_batches_raises as_completed (list_of_set links) session
                default_batch_size default_max_workers link e)
      as [e' ->]; [reflexivity | reflexivity | assumption | assumption | assumption |].
    by exists e'.
  - by intros ->.
  - by intros e ->.
Qed.

Lemma scrape_books_returns_witness :
  (∃ links, _collect_all_books_links 3 Sample.session 1 = Ok links)
  ∧ ∃ all_books_data,
      fst (scrape_books 3 Sample.session elements Sample.reversed true ∅)
      = Ok all_books_data
      ∧ length all_books_data = 3%nat.
Proof.
  split; [by eexists |].
  destruct (scrape_books_returns 3 Sample.session elements Sample.reversed true ∅)
    as (Hreturns & _).
  - intros i futures. unfold Sample.reversed. symmetry. apply Permutation_rev.
  - destruct (Hreturns _ eq_refl) as (data & Hdata & _ & Hlength).
    + intros link _. apply sample_session_returns.
    + exists data. split; [exact Hdata |]. by rewrite Hlength.
Defined.

(** ** The addresses of the listing pages *)

Lemma length_append (a b : string) :
  String.length (a +:+ b) = (String.length a + String.length b)%nat.
Proof.
  induction a as [|c a IH]; [reflexivity |].
  rewrite append_cons. simpl. by rewrite IH.
Qed.

Lemma append_inj_r (a b c : string) : a +:+ c = b +:+ c → a = b.
Proof.
  revert b. induction a as [|x a IH]; intros [|y b] Heq.
  - reflexivity.
  - apply (f_equal String.length) in Heq. rewrite !length_append in Heq.
    simpl in Heq. lia.
  - apply (f_equal String.length) in Heq. rewrite !length_append in Heq.
    simpl in Heq. lia.
  - rewrite !append_cons in Heq. injection Heq as -> Heq. f_equal. by apply IH.
Qed.

Lemma str_of_int_inj (n m : Z) : Text.str_of_int n = Text.str_of_int m → n = m.
Proof.
  unfold Text.str_of_int. intros Heq.
  assert (Hparse : ∀ z, NilZero.int_of_string (NilZero.string_of_int (Z.to_int z))
                        = Some (Z.to_int z)).
  { intros z. apply NilZero.isi; destruct z; simpl; try discriminate;
      intros [= H]; by apply Unsigned.to_uint_nonnil in H. }
  apply DecimalZ.to_int_inj.
  pose proof (Hparse n) as Hn. rewrite Heq, Hparse in Hn. by injection Hn.
Qed.

(** X16. Different page numbers have different listing URLs, so every turn of
    the collection asks for an address it has not asked for before. *)
Theorem page_url_inj (page_num1 page_num2 : Z) :
  page_url page_num1 = page_url page_num2 → page_num1 = page_num2.
Proof.
  unfold page_url. intros Heq.
  apply (inj (String.append _)) in Heq.
  apply append_inj_r in Heq. by apply str_of_int_inj.
Qed.

Lemma page_url_inj_witness :
  page_url (2 + 3) = page_url 5 ∧ 2 + 3 = 5.
Proof. split; [reflexivity | apply (page_url_inj (2 + 3) 5 eq_refl)]. Defined.

(** ** The fields of a record *)






(** ** Where the collected links come from *)

Lemma collect_loop_sound (session : Session) (fuel : nat) :
  ∀ (page_num : Z) (links result : gset string),
    collect_loop fuel session page_num links = Ok result →
    ∀ url, url ∈ result →
           url ∈ links
           ∨ ∃ (k : nat) page,
               fetch_gives (session (page_url (page_num + Z.of_nat k)) None) page
               ∧ url ∈ page_links_list page.
Proof.
  induction fuel as [|fuel IH]; intros page_num links result Hloop url Hurl;
    [discriminate |].
  destruct (fetch_cases (session (page_url page_num) None))
    as [Hfail | [[page Hpage] | [e Hraise]]].
  - cbn [collect_loop] in Hloop. rewrite loop_turn_break in Hloop by assumption.
    injection Hloop as <-. by left.
  - cbn [collect_loop] in Hloop.
    rewrite (loop_turn_continue _ _ _ page Hpage) in Hloop.
    cbn [mbind outcome_bind] in Hloop.
    destruct (IH _ _ _ Hloop url Hurl) as [Hin | (k & page' & Hpage' & Hin)].
    + apply elem_of_union in Hin as [Hin|Hin]; [by left |].
      right. exists 0%nat, page. rewrite Z.add_0_r. split; [assumption |].
      by apply elem_of_list_to_set in Hin.
    + right. exists (S k), page'. split; [| assumption].
      by replace (page_num + Z.of_nat (S k)) with (page_num + 1 + Z.of_nat k) by lia.
  - cbn [collect_loop] in Hloop.
    rewrite (loop_turn_raise _ _ _ e Hraise) in Hloop. discriminate.
Qed.

(** X18. Whatever the transport does, every link the collection returns was
    found under a heading of a listing page that was served, at a page number
    from the start page on, and it is the base path followed by an [href] of
    that page. *)
Theorem collect_all_links_sound (session : Session) (fuel : nat)
    (start_page_num : Z) (links : gset string) :
  _collect_all_books_links fuel session start_page_num = Ok links →
  ∀ url,
    url ∈ links →
    ∃ (k : nat) page href,
      fetch_gives (session (page_url (start_page_num + Z.of_nat k)) None) page
      ∧ href ∈ page_hrefs page
      ∧ url = base_url +:+ href.
Proof.
  intros Hlinks url Hurl.
  destruct (collect_loop_sound session fuel start_page_num ∅ links Hlinks url Hurl)
    as [Hin | (k & page & Hpage & Hin)]; [by apply not_elem_of_empty in Hin |].
  rewrite page_links_list_hrefs in Hin.
  apply list_elem_of_fmap in Hin as (href & -> & Hhref).
  by exists k, page, href.
Qed.

Lemma collect_all_links_sound_witness :
  ∃ links,
    _collect_all_books_links 3 Sample.session 1 = Ok links
    ∧ ∀ url, url ∈ links → ∃ href, url = base_url +:+ href.
Proof.
  eexists. split; [reflexivity |].
  intros url Hurl.
  destruct (collect_all_links_sound Sample.session 3 1 _ eq_refl url Hurl)
    as (_ & _ & href & _ & _ & Heq).
  by exists href.
Defined.
